(** * Post-compose publishing pipeline ([build_scripts/post_actions.py])

    A shallow embedding of the post-compose transformation pipeline:
    path scheme, tree reorganisation, updateinfo injection, kickstart
    mirroring, manifest rewriting, ISO collection and promotion of the
    "latest" directory, together with the properties of these steps.

    Layout of the development:
    - [Str]       Python string operations used by the script;
    - [Pathlib]   [pathlib.PurePosixPath] (parsing, joining, [name], [parent]);
    - [Fnmatch]   shell-style patterns used by [Path.glob];
    - [Json]      JSON values as [json.load] returns them;
    - [Ini]       the [ConfigParser] view of a [.treeinfo] file;
    - [Fs]        a file system with directories, hard links and symlinks;
    - [PostActions] the functions of [post_actions.py], one definition each. *)

From stdpp Require Import gmap strings list fin_maps pretty.
From Stdlib Require Import ZArith Ascii String.

Local Open Scope string_scope.
Set Warnings "-register-all".

(* ===================================================================== *)
(** ** Python strings *)
(* ===================================================================== *)

Module Str.

(** [s.startswith(p)] *)
Definition startswith (p s : string) : bool := String.prefix p s.

(** [strip p s] is the rest of [s] after the prefix [p], when [s] starts with [p]. *)
Fixpoint strip (p s : string) : option string :=
  match p with
  | EmptyString => Some s
  | String a p' =>
      match s with
      | EmptyString => None
      | String b s' => if Ascii.eqb a b then strip p' s' else None
      end
  end.

(** [s.split(sep)] for a one-character separator: never the empty list. *)
Fixpoint split_on (sep : ascii) (s : string) : list string :=
  match s with
  | EmptyString => [EmptyString]
  | String c s' =>
      if Ascii.eqb c sep then EmptyString :: split_on sep s'
      else match split_on sep s' with
           | [] => [String c EmptyString]
           | w :: ws => String c w :: ws
           end
  end.

(** [sep.join(l)] *)
Fixpoint join (sep : string) (l : list string) : string :=
  match l with
  | [] => EmptyString
  | [x] => x
  | x :: rest => x ++ sep ++ join sep rest
  end.

Definition lower_ascii (c : ascii) : ascii :=
  let n := nat_of_ascii c in
  if (65 <=? n)%nat && (n <=? 90)%nat then ascii_of_nat (n + 32) else c.

(** [s.lower()] on ASCII text *)
Fixpoint lower (s : string) : string :=
  match s with
  | EmptyString => EmptyString
  | String c s' => String (lower_ascii c) (lower s')
  end.

(** [s.replace(old, new)] for a non-empty [old]: leftmost, non-overlapping
    occurrences.  The fuel bounds the number of characters consumed. *)
Fixpoint replace_fuel (fuel : nat) (old new s : string) : string :=
  match fuel with
  | O => s
  | S fuel' =>
      match s with
      | EmptyString => EmptyString
      | String c s' =>
          match strip old s with
          | Some rest => new ++ replace_fuel fuel' old new rest
          | None => String c (replace_fuel fuel' old new s')
          end
      end
  end.

Definition replace (old new s : string) : string :=
  match old with
  | EmptyString => s
  | _ => replace_fuel (String.length s) old new s
  end.

(** [tpl.format(arch=arch)] for the templates of [PATH_DICTIONARY], whose
    only replacement field is [{arch}]. *)
Definition format_arch (tpl arch : string) : string := replace "{arch}" arch tpl.

(** a single path component: non-empty, without a slash, not [.] *)
Fixpoint has_char (c : ascii) (s : string) : bool :=
  match s with
  | EmptyString => false
  | String d s' => Ascii.eqb c d || has_char c s'
  end.

Definition plain_name (s : string) : bool :=
  negb (String.eqb s "") && negb (String.eqb s ".") && negb (has_char "/"%char s).

End Str.

(* ===================================================================== *)
(** ** pathlib *)
(* ===================================================================== *)

Module Pathlib.

(** A [PurePosixPath]: its root ([""], ["/"] or ["//"]) and its parts
    without the root. *)
Record Path := mkPath { root : string; parts : list string }.

#[global] Instance Path_eq_dec : EqDecision Path.
Proof. solve_decision. Defined.

Definition keep_part (s : string) : bool :=
  negb (String.eqb s "") && negb (String.eqb s ".").

(** POSIX: exactly two leading slashes are kept, any other number of
    leading slashes is one root. *)
Definition root_of (s : string) : string :=
  match s with
  | String "/" (String "/" (String "/" _)) => "/"
  | String "/" (String "/" _) => "//"
  | String "/" _ => "/"
  | _ => ""
  end.

(** [Path(s)] *)
Definition parse (s : string) : Path :=
  mkPath (root_of s) (List.filter keep_part (Str.split_on "/"%char s)).

Definition is_absolute (p : Path) : bool := negb (String.eqb (root p) "").

(** [p / s] for one string segment: an absolute segment replaces [p]. *)
Definition join1 (p : Path) (s : string) : Path :=
  let q := parse s in
  if is_absolute q then q else mkPath (root p) (parts p ++ parts q).

(** [p.joinpath(s1, ..., sn)] *)
Definition joinpath (p : Path) (segs : list string) : Path :=
  fold_left join1 segs p.

(** [p / q] for a path [q] *)
Definition join_path (p q : Path) : Path :=
  if is_absolute q then q else mkPath (root p) (parts p ++ parts q).

(** [str(p)] *)
Definition str (p : Path) : string :=
  match parts p, root p with
  | [], EmptyString => "."
  | _, _ => root p ++ Str.join "/" (parts p)
  end.

(** [p.name] *)
Definition name (p : Path) : string := List.last (parts p) "".

(** [p.parent] *)
Definition parent (p : Path) : Path := mkPath (root p) (removelast (parts p)).

(** [p.suffix]: the last dot-separated component of the name, with its
    dot, unless the dot is the first or the last character. *)
Definition suffix (p : Path) : string :=
  let n := name p in
  match rev (Str.split_on "."%char n) with
  | ext :: _ :: _ =>
      if String.eqb ext "" then ""
      else if String.eqb (Str.join "." (removelast (Str.split_on "."%char n))) "" then ""
      else "." ++ ext
  | _ => ""
  end.

(** [p.with_suffix(sfx)] where [sfx] extends the present suffix, as in
    [p.with_suffix(p.suffix + '.asc')]: the name gets [ext] appended.
    [None] is the [ValueError] for a path with an empty name. *)
Definition add_suffix (p : Path) (ext : string) : option Path :=
  match rev (parts p) with
  | [] => None
  | n :: before => Some (mkPath (root p) (rev before ++ [n ++ ext]))
  end.

(** [p.with_suffix("")] *)
Definition drop_suffix (p : Path) : option Path :=
  match rev (parts p) with
  | [] => None
  | n :: before =>
      let sfx := suffix p in
      let stem := String.substring 0 (String.length n - String.length sfx) n in
      Some (mkPath (root p) (rev before ++ [stem]))
  end.

End Pathlib.

(* ===================================================================== *)
(** ** fnmatch *)
(* ===================================================================== *)

Module Fnmatch.

Inductive tok :=
| TLit (c : ascii)
| TAny
| TStar
| TClass (negated : bool) (items : list (ascii * ascii)).

(** The items of a bracket expression up to the closing bracket; [None]
    when the bracket is never closed.  [first] is true at the position
    where a closing bracket stands for itself. *)
Fixpoint class_items (first : bool) (s : string) : option (list (ascii * ascii) * string) :=
  match s with
  | EmptyString => None
  | String c s' =>
      if Ascii.eqb c "]" && negb first then Some ([], s')
      else
        match s' with
        | String "-" (String hi s'') =>
            if Ascii.eqb hi "]" then
              match class_items false s' with
              | Some (its, rest) => Some ((c, c) :: its, rest)
              | None => None
              end
            else
              match class_items false s'' with
              | Some (its, rest) => Some ((c, hi) :: its, rest)
              | None => None
              end
        | _ =>
            match class_items false s' with
            | Some (its, rest) => Some ((c, c) :: its, rest)
            | None => None
            end
        end
  end.

Fixpoint tokens_fuel (fuel : nat) (s : string) : list tok :=
  match fuel with
  | O => []
  | S fuel' =>
      match s with
      | EmptyString => []
      | String c s' =>
          if Ascii.eqb c "*" then TStar :: tokens_fuel fuel' s'
          else if Ascii.eqb c "?" then TAny :: tokens_fuel fuel' s'
          else if Ascii.eqb c "[" then
            let '(neg, body) :=
              match s' with
              | String "!" b => (true, b)
              | _ => (false, s')
              end in
            match class_items true body with
            | Some (its, rest) => TClass neg its :: tokens_fuel fuel' rest
            | None => TLit c :: tokens_fuel fuel' s'
            end
          else TLit c :: tokens_fuel fuel' s'
      end
  end.

Definition tokens (pat : string) : list tok := tokens_fuel (String.length pat) pat.

Definition in_range (c : ascii) (r : ascii * ascii) : bool :=
  (nat_of_ascii (fst r) <=? nat_of_ascii c)%nat && (nat_of_ascii c <=? nat_of_ascii (snd r))%nat.

Fixpoint match_here (ts : list tok) (s : string) : bool :=
  match ts with
  | [] => match s with EmptyString => true | _ => false end
  | TStar :: ts' =>
      (fix star (s : string) : bool :=
         match_here ts' s ||
         match s with
         | EmptyString => false
         | String _ s' => star s'
         end) s
  | TLit c :: ts' =>
      match s with
      | String d s' => Ascii.eqb c d && match_here ts' s'
      | EmptyString => false
      end
  | TAny :: ts' =>
      match s with
      | String _ s' => match_here ts' s'
      | EmptyString => false
      end
  | TClass neg its :: ts' =>
      match s with
      | String d s' => xorb neg (existsb (in_range d) its) && match_here ts' s'
      | EmptyString => false
      end
  end.

(** [fnmatch.fnmatchcase(name, pat)] *)
Definition fnmatch (name pat : string) : bool := match_here (tokens pat) name.

(** a pattern component with a wildcard is matched against a listing, one
    without is looked up *)
Definition has_magic (pat : string) : bool :=
  Str.has_char "*" pat || Str.has_char "?" pat || Str.has_char "[" pat.

End Fnmatch.

(* ===================================================================== *)
(** ** JSON documents *)
(* ===================================================================== *)

Module Json.

(** The value [json.load] returns.  An object is a Python [dict]: its keys
    in insertion order. *)
Inductive json :=
| JNull
| JBool (b : bool)
| JNum (n : Z)
| JStr (s : string)
| JArr (items : list json)
| JObj (fields : list (string * json)).

(** [k in d] and [d[k]] on the fields of a dict *)
Fixpoint dict_get (k : string) (fields : list (string * json)) : option json :=
  match fields with
  | [] => None
  | (k', v) :: rest => if String.eqb k k' then Some v else dict_get k rest
  end.

(** [d[k] = v]: an existing key keeps its position, a new key goes last *)
Fixpoint dict_set (k : string) (v : json) (fields : list (string * json)) : list (string * json) :=
  match fields with
  | [] => [(k, v)]
  | (k', v') :: rest =>
      if String.eqb k k' then (k', v) :: rest else (k', v') :: dict_set k v rest
  end.

(** [del d[k]] *)
Definition dict_del (k : string) (fields : list (string * json)) : list (string * json) :=
  List.filter (fun kv => negb (String.eqb k (fst kv))) fields.

(** [d[k]] on any value: [None] is the [KeyError] or [TypeError]. *)
Definition subscript (d : json) (k : string) : option json :=
  match d with
  | JObj fields => dict_get k fields
  | _ => None
  end.

(** The body of [for k in d: ... d[k] ...] run over every key of a dict,
    each value replaced by what the body leaves in it. *)
Fixpoint dict_mapM (body : string -> json -> option json) (fields : list (string * json))
  : option (list (string * json)) :=
  match fields with
  | [] => Some []
  | (k, v) :: rest =>
      match body k v with
      | None => None
      | Some v' =>
          match dict_mapM body rest with
          | None => None
          | Some rest' => Some ((k, v') :: rest')
          end
      end
  end.

(** [for k in d: v = d[k]; ...] on a value that need not be a dict.  An
    empty list or string is iterated zero times; any other non-dict value
    raises, at the iteration or at the subscript [d[k]]. *)
Definition for_keys (d : json) (body : string -> json -> option json) : option json :=
  match d with
  | JObj fields =>
      match dict_mapM body fields with
      | Some fields' => Some (JObj fields')
      | None => None
      end
  | JArr [] => Some d
  | JStr EmptyString => Some d
  | _ => None
  end.

(** [for k, v in d.items(): ...]: only a dict has [items]. *)
Definition for_items (d : json) (body : string -> json -> option json) : option json :=
  match d with
  | JObj fields =>
      match dict_mapM body fields with
      | Some fields' => Some (JObj fields')
      | None => None
      end
  | _ => None
  end.

(** [k in d] for a dict, a list or a string holding [d] *)
Definition contains_key (d : json) (k : string) : option bool :=
  match d with
  | JObj fields => Some (match dict_get k fields with Some _ => true | None => false end)
  | JArr items => Some (existsb (fun x => match x with JStr s => String.eqb s k | _ => false end) items)
  | JStr s => Some (match s with
                    | EmptyString => false
                    | _ => negb (String.eqb (Str.replace k "" s) s)
                    end)
  | _ => None
  end.

(** [content['payload'][section]] *)
Definition payload (content : json) (section : string) : option json :=
  match subscript content "payload" with
  | Some p => subscript p section
  | None => None
  end.

(** [content['payload'][section]] replaced by [v], every key in place *)
Definition set_payload (content : json) (section : string) (v : json) : option json :=
  match content with
  | JObj fields =>
      match dict_get "payload" fields with
      | Some (JObj pf) =>
          match dict_get section pf with
          | Some _ => Some (JObj (dict_set "payload" (JObj (dict_set section v pf)) fields))
          | None => None
          end
      | _ => None
      end
  | _ => None
  end.

End Json.

(* ===================================================================== *)
(** ** ConfigParser *)
(* ===================================================================== *)

Module Ini.

(** What [ConfigParser.read] holds after reading a file: the [DEFAULT]
    section and the named sections, option names already lower-cased by
    [optionxform]. *)
Record config := mkConfig {
  defaults : list (string * string);
  sections : list (string * list (string * string))
}.

Definition empty : config := mkConfig [] [].

Definition optionxform (key : string) : string := Str.lower key.

Fixpoint assoc {A} (k : string) (l : list (string * A)) : option A :=
  match l with
  | [] => None
  | (k', v) :: rest => if String.eqb k k' then Some v else assoc k rest
  end.

Fixpoint assoc_set {A} (k : string) (v : A) (l : list (string * A)) : list (string * A) :=
  match l with
  | [] => [(k, v)]
  | (k', v') :: rest =>
      if String.eqb k k' then (k', v) :: rest else (k', v') :: assoc_set k v rest
  end.

(** [section in config.sections()] *)
Definition has_section (c : config) (section : string) : bool :=
  match assoc section (sections c) with Some _ => true | None => false end.

(** the stored value of an option, the section's own before [DEFAULT] *)
Definition get_raw (c : config) (section key : string) : option string :=
  match assoc section (sections c) with
  | None => None
  | Some opts =>
      match assoc (optionxform key) opts with
      | Some v => Some v
      | None => assoc (optionxform key) (defaults c)
      end
  end.

(** [%(name)s] references removed, as [BasicInterpolation._KEYCRE.sub]. *)
Fixpoint take_until (c : ascii) (s : string) : option (string * string) :=
  match s with
  | EmptyString => None
  | String d s' =>
      if Ascii.eqb c d then Some (EmptyString, s')
      else match take_until c s' with
           | Some (a, b) => Some (String d a, b)
           | None => None
           end
  end.

Fixpoint drop_keys_fuel (fuel : nat) (s : string) : string :=
  match fuel with
  | O => s
  | S fuel' =>
      match s with
      | EmptyString => EmptyString
      | String c s' =>
          match Str.strip "%(" s with
          | Some rest =>
              match take_until ")" rest with
              | Some (String _ _, String "s" after) => drop_keys_fuel fuel' after
              | _ => String c (drop_keys_fuel fuel' s')
              end
          | None => String c (drop_keys_fuel fuel' s')
          end
      end
  end.

(** [BasicInterpolation.before_set]: a percent sign must be doubled or
    start a [%(name)s] reference. *)
Definition valid_interpolation_syntax (value : string) : bool :=
  let tmp := Str.replace "%%" "" value in
  negb (Str.has_char "%" (drop_keys_fuel (String.length tmp) tmp)).

(** [config.set(section, option, value)].  [None] is [NoSectionError] or
    the [ValueError] of an invalid percent sign. *)
Definition set (c : config) (section key value : string) : option config :=
  if negb (String.eqb value "") && negb (valid_interpolation_syntax value) then None
  else if String.eqb section "" || String.eqb section "DEFAULT" then
    Some (mkConfig (assoc_set (optionxform key) value (defaults c)) (sections c))
  else
    match assoc section (sections c) with
    | None => None
    | Some opts =>
        Some (mkConfig (defaults c)
                (assoc_set section (assoc_set (optionxform key) value opts) (sections c)))
    end.

End Ini.

(* ===================================================================== *)
(** ** The file system *)
(* ===================================================================== *)

Module Fs.
Import Pathlib.
Local Open Scope list_scope.

(** What a regular file holds.  A manifest is kept as the value
    [json.load] reads from it and [json.dump] writes to it, a [.treeinfo]
    file as the sections [ConfigParser] reads and writes; any other file is
    its text. *)
Inductive content :=
| Raw (text : string)
| JsonDoc (j : Json.json)
| IniDoc (c : Ini.config).

(** A directory entry: a directory, a hard link to an inode, or a symbolic
    link with the text of its target. *)
Inductive entry :=
| EDir
| EFile (ino : nat)
| ELink (target : string).

#[global] Instance entry_eq_dec : EqDecision entry.
Proof. solve_decision. Defined.

(** Every entry is stored under its canonical location: the names from the
    root down, none of them a symbolic link.  The root itself has no
    record; it is always a directory.  [cwd] is the working directory of
    the process, [symloop_max] the number of symbolic links the system
    follows in one lookup before it gives up. *)
Record filesystem := mkFs {
  entries : gmap (list string) entry;
  inodes : gmap nat content;
  cwd : list string;
  symloop_max : nat
}.

Definition node (m : gmap (list string) entry) (k : list string) : option entry :=
  match k with
  | [] => Some EDir
  | _ => m !! k
  end.

Fixpoint strip_prefix (p k : list string) : option (list string) :=
  match p with
  | [] => Some k
  | a :: p' =>
      match k with
      | [] => None
      | b :: k' => if String.eqb a b then strip_prefix p' k' else None
      end
  end.

(** the entries below [k], keyed by their location relative to [k]
    (the entry of [k] itself under [[]]) *)
Definition rel_entries (k : list string) (m : gmap (list string) entry)
  : list (list string * entry) :=
  omap (fun kv => match strip_prefix k (fst kv) with
                  | Some r => Some (r, snd kv)
                  | None => None
                  end) (map_to_list m).

Definition subtree (k : list string) (m : gmap (list string) entry) : gmap (list string) entry :=
  list_to_map (rel_entries k m).

(** a relative tree placed at [k] *)
Definition graft (k : list string) (t : gmap (list string) entry) : gmap (list string) entry :=
  kmap (app k) t.

(** everything at and below [k] removed *)
Definition prune (k : list string) (m : gmap (list string) entry) : gmap (list string) entry :=
  filter (fun kv => ¬ (k `prefix_of` fst kv)) m.

(** the largest number of symbolic links Linux follows in one lookup *)
Definition MAXSYMLINKS : nat := 40.

(** Path resolution from the directory [cur]: every component is looked
    up in the directory reached so far, [..] goes to the parent, a
    symbolic link is replaced by its target.  The result is the canonical
    location of an existing entry that is not a symbolic link. *)
Fixpoint walk (fuel : nat) (m : gmap (list string) entry) (cur : list string)
    (ps : list string) {struct fuel} : option (list string) :=
  (fix go (cur : list string) (ps : list string) {struct ps} : option (list string) :=
     match ps with
     | [] => Some cur
     | x :: rest =>
         match node m cur with
         | Some EDir =>
             if String.eqb x ".." then go (removelast cur) rest
             else
               match m !! (cur ++ [x]) with
               | None => None
               | Some (ELink t) =>
                   match fuel with
                   | O => None
                   | S fuel' =>
                       let q := parse t in
                       walk fuel' m (if is_absolute q then [] else cur) (parts q ++ rest)
                   end
               | Some _ => go (cur ++ [x]) rest
               end
         | _ => None
         end
     end) cur ps.

Definition start (fs : filesystem) (p : Path) : list string :=
  if is_absolute p then [] else cwd fs.

(** the canonical location of the entry [p] names, symbolic links followed *)
Definition resolve (fs : filesystem) (p : Path) : option (list string) :=
  walk (symloop_max fs) (entries fs) (start fs p) (parts p).

(** the directory holding the last component of [p], and that component:
    what a system call that does not follow a final link works on *)
Definition resolve_parent (fs : filesystem) (p : Path) : option (list string * string) :=
  match rev (parts p) with
  | [] => None
  | x :: before =>
      if String.eqb x ".." then None
      else
        match walk (symloop_max fs) (entries fs) (start fs p) (rev before) with
        | Some d =>
            match node (entries fs) d with
            | Some EDir => Some (d, x)
            | _ => None
            end
        | None => None
        end
  end.

Definition lkey (fs : filesystem) (p : Path) : option (list string) :=
  match resolve_parent fs p with
  | Some (d, x) => Some (d ++ [x])
  | None => None
  end.

(** [p.exists()] *)
Definition exists_ (fs : filesystem) (p : Path) : bool :=
  match resolve fs p with Some _ => true | None => false end.

(** [p.is_dir()] *)
Definition is_dir (fs : filesystem) (p : Path) : bool :=
  match resolve fs p with
  | Some k => match node (entries fs) k with Some EDir => true | _ => false end
  | None => false
  end.

(** [os.readlink(p)] *)
Definition readlink (fs : filesystem) (p : Path) : option string :=
  match lkey fs p with
  | Some k => match entries fs !! k with Some (ELink t) => Some t | _ => None end
  | None => None
  end.

Definition with_entries (fs : filesystem) (m : gmap (list string) entry) : filesystem :=
  mkFs m (inodes fs) (cwd fs) (symloop_max fs).

(** [os.unlink(p)], [os.remove(p)] *)
Definition unlink (fs : filesystem) (p : Path) : option filesystem :=
  match lkey fs p with
  | Some k =>
      match entries fs !! k with
      | Some (EFile _) | Some (ELink _) => Some (with_entries fs (delete k (entries fs)))
      | _ => None
      end
  | None => None
  end.

(** [os.symlink(target, p)] *)
Definition symlink (fs : filesystem) (target : string) (p : Path) : option filesystem :=
  match lkey fs p with
  | Some k =>
      match entries fs !! k with
      | None => Some (with_entries fs (<[k := ELink target]> (entries fs)))
      | Some _ => None
      end
  | None => None
  end.

(** [os.mkdir(p)] *)
Definition mkdir (fs : filesystem) (p : Path) : option filesystem :=
  match lkey fs p with
  | Some k =>
      match entries fs !! k with
      | None => Some (with_entries fs (<[k := EDir]> (entries fs)))
      | Some _ => None
      end
  | None => None
  end.

(** [os.makedirs(p, exist_ok=...)]: the missing directories along [p] are
    made from the top down; [todo] are the components still to visit. *)
Fixpoint makedirs_from (fs : filesystem) (exist_ok : bool) (done : Path) (todo : list string)
  : option filesystem :=
  match todo with
  | [] => Some fs
  | x :: rest =>
      let here := mkPath (root done) (parts done ++ [x]) in
      if exists_ fs here then
        match rest with
        | [] => if exist_ok && is_dir fs here then Some fs else None
        | _ => makedirs_from fs exist_ok here rest
        end
      else
        match mkdir fs here with
        | Some fs' => makedirs_from fs' exist_ok here rest
        | None => None
        end
  end.

Definition makedirs (fs : filesystem) (p : Path) (exist_ok : bool) : option filesystem :=
  match parts p with
  | [] => if exist_ok then Some fs else None
  | _ => makedirs_from fs exist_ok (mkPath (root p) []) (parts p)
  end.

(** no entry strictly below [k] *)
Definition is_empty_dir (m : gmap (list string) entry) (k : list string) : bool :=
  bool_decide (subtree k m = {[ [] := EDir ]}).

(** the entries at and below [ks] taken to [kd] *)
Definition move (ks kd : list string) (m : gmap (list string) entry) : gmap (list string) entry :=
  graft kd (subtree ks m) ∪ prune ks (prune kd m).

(** [os.rename(src, dst)], [Path.rename]: neither final component is
    followed when it is a symbolic link. *)
Definition rename (fs : filesystem) (src dst : Path) : option filesystem :=
  match lkey fs src, lkey fs dst with
  | Some ks, Some kd =>
      match entries fs !! ks with
      | None => None
      | Some e =>
          if bool_decide (ks = kd) then Some fs
          else if bool_decide (ks `prefix_of` kd) then None
          else
            match e, entries fs !! kd with
            | _, None => Some (with_entries fs (move ks kd (entries fs)))
            | EDir, Some EDir =>
                if is_empty_dir (entries fs) kd
                then Some (with_entries fs (move ks kd (entries fs)))
                else None
            | EDir, Some _ => None
            | _, Some EDir => None
            | EFile i, Some (EFile j) =>
                if bool_decide (i = j) then Some fs
                else Some (with_entries fs (move ks kd (entries fs)))
            | _, Some _ => Some (with_entries fs (move ks kd (entries fs)))
            end
      end
  | _, _ => None
  end.

(** [shutil.rmtree(p)]: [p] must name a real directory, not a link to one. *)
Definition rmtree (fs : filesystem) (p : Path) : option filesystem :=
  match lkey fs p with
  | Some k =>
      match entries fs !! k with
      | Some EDir => Some (with_entries fs (prune k (entries fs)))
      | _ => None
      end
  | None => None
  end.

(** the names in the directory at [k] *)
Definition listdir (fs : filesystem) (k : list string) : list string :=
  omap (fun kv => match strip_prefix k (fst kv) with
                  | Some [x] => Some x
                  | _ => None
                  end) (map_to_list (entries fs)).

(** [open(p).read()] *)
Definition read_file (fs : filesystem) (p : Path) : option content :=
  match resolve fs p with
  | Some k =>
      match node (entries fs) k with
      | Some (EFile i) => inodes fs !! i
      | _ => None
      end
  | None => None
  end.

(** Where [open(p, 'w')] creates the file of a path that names nothing
    yet: in the directory of its last component, or, when that component
    is a dangling symbolic link, where the link points. *)
Fixpoint create_key (fuel lim : nat) (m : gmap (list string) entry) (from : list string)
    (ps : list string) : option (list string) :=
  match rev ps with
  | [] => None
  | x :: before =>
      if String.eqb x ".." then None
      else
        match walk lim m from (rev before) with
        | Some d =>
            match node m d with
            | Some EDir =>
                match m !! (d ++ [x]) with
                | None => Some (d ++ [x])
                | Some (ELink t) =>
                    match fuel with
                    | O => None
                    | S fuel' =>
                        let q := parse t in
                        create_key fuel' lim m (if is_absolute q then [] else d) (parts q)
                    end
                | Some _ => None
                end
            | _ => None
            end
        | None => None
        end
  end.

Definition fresh_ino (fs : filesystem) : nat := fresh (dom (inodes fs)).

(** [open(p, 'w').write(c)]: an existing file keeps its inode, so every
    hard link to it sees the new content; a missing file gets a new inode. *)
Definition write_file (fs : filesystem) (p : Path) (c : content) : option filesystem :=
  match resolve fs p with
  | Some k =>
      match node (entries fs) k with
      | Some (EFile i) => Some (mkFs (entries fs) (<[i := c]> (inodes fs)) (cwd fs) (symloop_max fs))
      | _ => None
      end
  | None =>
      match create_key (symloop_max fs) (symloop_max fs) (entries fs) (start fs p) (parts p) with
      | Some k =>
          let i := fresh_ino fs in
          Some (mkFs (<[k := EFile i]> (entries fs)) (<[i := c]> (inodes fs)) (cwd fs) (symloop_max fs))
      | None => None
      end
  end.

(** the text of a file, or the empty text where [open(p, 'a+')] first has
    to create it *)
Definition text_or_empty (fs : filesystem) (p : Path) : option string :=
  match resolve fs p with
  | Some k =>
      match node (entries fs) k with
      | Some (EFile i) =>
          match inodes fs !! i with
          | Some (Raw s) => Some s
          | _ => None
          end
      | _ => None
      end
  | None =>
      match create_key (symloop_max fs) (symloop_max fs) (entries fs) (start fs p) (parts p) with
      | Some _ => Some ""
      | None => None
      end
  end.

(** [open(p, 'a+').write(text)] *)
Definition append_file (fs : filesystem) (p : Path) (text : string) : option filesystem :=
  match text_or_empty fs p with
  | Some old => write_file fs p (Raw (old +:+ text))
  | None => None
  end.

(** [shutil.copy(src, dst)] *)
Definition copy (fs : filesystem) (src dst : Path) : option filesystem :=
  match read_file fs src with
  | Some c =>
      let dst' := if is_dir fs dst then mkPath (root dst) (parts dst ++ [name src]) else dst in
      if bool_decide (resolve fs src = resolve fs dst') then None
      else write_file fs dst' c
  | None => None
  end.

(** How [copytree] copies one regular file. *)
Inductive copy_function := os_link | copy2.

(** The copy of a relative tree, entry by entry: a directory is made, a
    file is linked or copied to a new inode.  A symbolic link inside the
    copied tree is outside what is modelled ([None]). *)
Fixpoint copy_entries (how : copy_function) (kd : list string)
    (ents : list (list string * entry)) (fs : filesystem) : option filesystem :=
  match ents with
  | [] => Some fs
  | (r, e) :: rest =>
      match e with
      | EDir => copy_entries how kd rest (with_entries fs (<[kd ++ r := EDir]> (entries fs)))
      | EFile i =>
          match how with
          | os_link =>
              copy_entries how kd rest (with_entries fs (<[kd ++ r := EFile i]> (entries fs)))
          | copy2 =>
              match inodes fs !! i with
              | Some c =>
                  let j := fresh_ino fs in
                  copy_entries how kd rest
                    (mkFs (<[kd ++ r := EFile j]> (entries fs)) (<[j := c]> (inodes fs)) (cwd fs) (symloop_max fs))
              | None => None
              end
          end
      | ELink _ => None
      end
  end.

(** [shutil.copytree(src, dst, copy_function=how)]: [src] is a directory,
    [dst] does not exist and is made with its missing parents. *)
Definition copytree (fs : filesystem) (src dst : Path) (how : copy_function) : option filesystem :=
  match resolve fs src with
  | Some ks =>
      match node (entries fs) ks with
      | Some EDir =>
          let t := subtree ks (entries fs) in
          match makedirs fs dst false with
          | Some fs1 =>
              match resolve fs1 dst with
              | Some kd =>
                  if bool_decide (ks `prefix_of` kd) then None
                  else copy_entries how kd (map_to_list (delete [] t)) fs1
              | None => None
              end
          | None => None
          end
      | _ => None
      end
  | None => None
  end.

Definition child (p : Path) (x : string) : Path := mkPath (root p) (parts p ++ [x]).

(** [p.glob(pattern)], one pattern component after the other: a component
    with a wildcard selects from the listing of the directory, one without
    is looked up; all but the last must lead to a directory. *)
Fixpoint glob_parts (fs : filesystem) (base : Path) (pats : list string) : list Path :=
  match pats with
  | [] => [base]
  | pat :: rest =>
      let cands :=
        if Fnmatch.has_magic pat then
          match resolve fs base with
          | Some k =>
              match node (entries fs) k with
              | Some EDir => List.filter (fun x => Fnmatch.fnmatch x pat) (listdir fs k)
              | _ => []
              end
          | None => []
          end
        else if exists_ fs (child base pat) then [pat] else [] in
      let cands' :=
        match rest with
        | [] => cands
        | _ => List.filter (fun x => is_dir fs (child base x)) cands
        end in
      flat_map (fun x => glob_parts fs (child base x) rest) cands'
  end.

Definition glob (fs : filesystem) (base : Path) (pattern : string) : list Path :=
  glob_parts fs base (parts (parse pattern)).

(** every location from [k] down to [k ++ r] is a real directory *)
Fixpoint real_dirs_below (m : gmap (list string) entry) (k : list string)
    (r : list string) : bool :=
  match node m k with
  | Some EDir =>
      match r with
      | [] => true
      | x :: r' => negb (String.eqb x "..") && real_dirs_below m (k ++ [x]) r'
      end
  | _ => false
  end.

(** [p.rglob(name)] for a name without wildcards: the entry of that name
    in [p] and in every directory below it; symbolic links to directories
    are not descended into. *)
Definition rglob (fs : filesystem) (base : Path) (fname : string) : list Path :=
  match resolve fs base with
  | Some kb =>
      omap (fun r =>
              let d := mkPath (root base) (parts base ++ r) in
              if real_dirs_below (entries fs) kb r && exists_ fs (child d fname)
              then Some (child d fname) else None)
           ([] :: List.filter (fun r => negb (bool_decide (r = [])))
                    (List.map fst (rel_entries kb (entries fs))))
  | None => []
  end.

#[global] Arguments walk : simpl never.
#[global] Arguments create_key : simpl never.
#[global] Arguments resolve : simpl never.
#[global] Arguments resolve_parent : simpl never.
#[global] Arguments lkey : simpl never.
#[global] Arguments exists_ : simpl never.
#[global] Arguments is_dir : simpl never.
#[global] Arguments readlink : simpl never.
#[global] Arguments unlink : simpl never.
#[global] Arguments symlink : simpl never.
#[global] Arguments mkdir : simpl never.
#[global] Arguments makedirs : simpl never.
#[global] Arguments rename : simpl never.
#[global] Arguments rmtree : simpl never.
#[global] Arguments listdir : simpl never.
#[global] Arguments read_file : simpl never.
#[global] Arguments write_file : simpl never.
#[global] Arguments text_or_empty : simpl never.
#[global] Arguments append_file : simpl never.
#[global] Arguments copy : simpl never.
#[global] Arguments copytree : simpl never.
#[global] Arguments glob : simpl never.
#[global] Arguments rglob : simpl never.
#[global] Arguments subtree : simpl never.
#[global] Arguments graft : simpl never.
#[global] Arguments prune : simpl never.
#[global] Arguments move : simpl never.

End Fs.
(* ===================================================================== *)
(** ** post_actions.py *)
(* ===================================================================== *)

Module PostActions.
Import Pathlib Fs Json.
Local Open Scope list_scope.

Definition PUNGI_RESULTS : string := "pungi-results".
Definition KICKSTART_REPO : string := "BaseOS".
Definition INCLUDED_TO_KICKSTART_REPO : string := "AppStream".

(** The items of [PATH_DICTIONARY]. *)
Definition PATH_DICTIONARY_items : list (string * string) :=
  [ ("debug", "debug/{arch}");
    ("source", "Source");
    ("source_packages", "Source/Packages");
    ("source_repository", "Source");
    ("source_tree", "Source");
    ("debug_packages", "debug/{arch}/Packages");
    ("debug_repository", "debug/{arch}");
    ("debug_tree", "debug/{arch}") ].

(** [PATH_DICTIONARY[key]]: a [defaultdict] whose missing keys read as
    [None]. *)
Definition PATH_DICTIONARY (key : string) : option string :=
  Ini.assoc key PATH_DICTIONARY_items.

(** [PATH_DICTIONARY[v]] for a value read from a manifest: a value that
    is not a string is no key of the dictionary, a list or a dict cannot
    be hashed (the outer [None]). *)
Definition PATH_DICTIONARY_json (v : json) : option (option string) :=
  match v with
  | JStr s => Some (PATH_DICTIONARY s)
  | JArr _ | JObj _ => None
  | _ => Some None
  end.

(** *** Logging *)

Inductive level := INFO | WARNING.

(** The records the script logs, one constructor for each message of the
    source, with the values formatted into it. *)
Inductive message :=
| MsgLatestResults (paths : list string)
| MsgMoveSources (latest repo : string)
| MsgMoveDebug (latest arch repo : string)
| MsgCopyUpdateinfo (repo : string)
| MsgModifyRepo (repo : string)
| MsgUpdateinfoMissing (repo : string)
| MsgSignRepomd (repo : string)
| MsgMakeKickstart (latest repo arch : string)
| MsgCopyRepodata
| MsgUpdateTimestamp (timestamp : Z) (path : string)
| MsgUpdateKickstartTreeinfo (path : string)
| MsgSignChecksum
| MsgChecksumAbsent
| MsgPostProcessing (file : string)
| MsgManifestAbsent (file : string)
| MsgCopyJson (src dst : string)
| MsgMoveIso (src dst : string)
| MsgWriteChecksum (src dst : string)
| MsgNewRealName (path : string)
| MsgOldRealName (path : string)
| MsgAddTimestamp (path : string)
| MsgRemoveNotNeeded (repo path : string).

Record record := mkRecord { lvl : level; msg : message }.

(** *** The state the script runs in *)

(** The file system, the log written so far, the shell commands run so
    far, and the number of readings of the outside world (clock, signing
    service, shell commands) taken so far. *)
Record world := mkWorld {
  fs : filesystem;
  log : list record;
  calls : list string;
  ticks : nat
}.

Definition with_fs (w : world) (fs' : filesystem) : world :=
  mkWorld fs' (log w) (calls w) (ticks w).

Definition on_fs (f : filesystem -> option filesystem) (w : world) : option world :=
  match f (fs w) with
  | Some fs' => Some (with_fs w fs')
  | None => None
  end.

Definition logging_info (m : message) (w : world) : world :=
  mkWorld (fs w) (log w ++ [mkRecord INFO m]) (calls w) (ticks w).

Definition logging_warning (m : message) (w : world) : world :=
  mkWorld (fs w) (log w ++ [mkRecord WARNING m]) (calls w) (ticks w).

Definition tick (w : world) : world :=
  mkWorld (fs w) (log w) (calls w) (S (ticks w)).

(** [for x in l: body(x)] *)
Fixpoint for_each {A} (l : list A) (body : A -> world -> option world) (w : world)
  : option world :=
  match l with
  | [] => Some w
  | x :: rest =>
      match body x w with
      | Some w' => for_each rest body w'
      | None => None
      end
  end.

(** The command-line arguments. *)
Record arguments := mkArguments {
  env_path : string;
  sign_service_username : option string;
  sign_service_password : option string;
  sign_service_endpoint : option string;
  pgp_sign_keyid : option string;
  middle_result_directory : option string;
  arch_ : string;
  source_repos_folder : string;
  repos : list string;
  middle_repos : list string;
  not_needed_repos : list string
}.

(** *** A compose result to run the pipeline on

    One result directory, [/env/pungi-results/last_compose_dir], with the
    [latest-AlmaLinux-8] link beside it, three variants, the three
    manifests, and the platform repository the update information comes
    from. *)

Definition dirs_of (l : list (list string)) : list (list string * entry) :=
  List.map (fun k => (k, EDir)) l.

Definition sample_root : list string := ["env"; "pungi-results"; "last_compose_dir"; "compose"].

Definition sample_treeinfo : Ini.config :=
  Ini.mkConfig []
    [("general", [("timestamp", "1"); ("name", "AlmaLinux")]);
     ("tree", [("arch", "x86_64"); ("build_timestamp", "1")])].

Definition sample_artifact (category path : string) : json :=
  JObj [("category", JStr category); ("path", JStr path); ("sigkey", JNull)].

Definition sample_rpms : json :=
  JObj [("header", JObj []);
        ("payload", JObj [("compose", JObj []);
          ("rpms", JObj [
            ("BaseOS", JObj [("x86_64", JObj [("bash-0:5.src", JObj [
               ("bash-0:5.x86_64", sample_artifact "binary" "BaseOS/x86_64/os/Packages/b/bash.rpm");
               ("bash-0:5.src", sample_artifact "source" "BaseOS/source/tree/Packages/b/bash.src.rpm");
               ("bash-debuginfo", sample_artifact "debug" "BaseOS/x86_64/debug/tree/Packages/b/bash-debuginfo.rpm")])])]);
            ("Minimal", JObj [("x86_64", JObj [])]);
            ("Extras", JObj [("x86_64", JObj [])])])])].

Definition sample_composeinfo : json :=
  JObj [("payload", JObj [("variants", JObj [
     ("BaseOS", JObj [("id", JStr "BaseOS");
        ("paths", JObj [("debug_packages", JObj [("x86_64", JStr "BaseOS/x86_64/debug/tree/Packages")]);
                        ("os_tree", JObj [("x86_64", JStr "BaseOS/x86_64/os")]);
                        ("source_tree", JObj [("x86_64", JStr "BaseOS/source/tree")])])]);
     ("Minimal", JObj [("paths", JObj [])]);
     ("Extras", JObj [("paths", JObj [])])])])].

Definition sample_images : json :=
  JObj [("payload", JObj [("images", JObj [
     ("BaseOS", JObj [("x86_64", JArr [JObj [("path", JStr "BaseOS/x86_64/iso/AlmaLinux-8-x86_64-dvd.iso")]])]);
     ("Minimal", JObj [("x86_64", JArr [JObj [("path", JStr "Minimal/x86_64/iso/AlmaLinux-8-x86_64-minimal.iso")]])])])])].

Definition sample_entries : list (list string * entry) :=
  dirs_of [["env"]; ["env"; "pungi-results"]; ["env"; "pungi-results"; "last_compose_dir"];
           sample_root;
           sample_root ++ ["BaseOS"];
           sample_root ++ ["BaseOS"; "source"];
           sample_root ++ ["BaseOS"; "source"; "tree"];
           sample_root ++ ["BaseOS"; "x86_64"];
           sample_root ++ ["BaseOS"; "x86_64"; "debug"];
           sample_root ++ ["BaseOS"; "x86_64"; "debug"; "tree"];
           sample_root ++ ["BaseOS"; "x86_64"; "os"];
           sample_root ++ ["BaseOS"; "x86_64"; "os"; "repodata"];
           sample_root ++ ["BaseOS"; "x86_64"; "iso"];
           sample_root ++ ["Minimal"]; sample_root ++ ["Minimal"; "x86_64"];
           sample_root ++ ["Extras"]; sample_root ++ ["Extras"; "x86_64"];
           sample_root ++ ["metadata"];
           ["repos"]; ["repos"; "platform-almalinux-8-baseos-x86_64"];
           ["repos"; "platform-almalinux-8-baseos-x86_64"; "repodata"]]
  ++ [ (["env"; "pungi-results"; "latest-AlmaLinux-8"], ELink "last_compose_dir");
       (sample_root ++ ["BaseOS"; "source"; "tree"; "bash.src.rpm"], EFile 1);
       (sample_root ++ ["BaseOS"; "x86_64"; "debug"; "tree"; "bash-debuginfo.rpm"], EFile 2);
       (sample_root ++ ["BaseOS"; "x86_64"; "os"; ".treeinfo"], EFile 3);
       (sample_root ++ ["BaseOS"; "x86_64"; "os"; "repodata"; "repomd.xml"], EFile 4);
       (sample_root ++ ["BaseOS"; "x86_64"; "iso"; "AlmaLinux-8-x86_64-dvd.iso"], EFile 6);
       (sample_root ++ ["BaseOS"; "x86_64"; "iso"; "CHECKSUM"], EFile 7);
       (sample_root ++ ["metadata"; "composeinfo.json"], EFile 8);
       (sample_root ++ ["metadata"; "rpms.json"], EFile 9);
       (sample_root ++ ["metadata"; "images.json"], EFile 10);
       (["repos"; "platform-almalinux-8-baseos-x86_64"; "repodata"; "abc-updateinfo.xml.gz"],
        EFile 11) ].

Definition sample_inodes : list (nat * content) :=
  [(1, Raw "srpm"); (2, Raw "dbg"); (3, IniDoc sample_treeinfo); (4, Raw "<repomd/>");
   (6, Raw "iso"); (7, Raw "sha256 dvd");
   (8, JsonDoc sample_composeinfo); (9, JsonDoc sample_rpms); (10, JsonDoc sample_images);
   (11, Raw "updateinfo")].

Definition sample_fs : filesystem :=
  mkFs (list_to_map sample_entries) (list_to_map sample_inodes) [] MAXSYMLINKS.

Definition sample_world : world := mkWorld sample_fs [] [] 0.

Definition sample_args : arguments :=
  mkArguments "/env" None None None None None "x86_64" "/repos"
    ["BaseOS"; "Minimal"; "Extras"] [] ["Minimal"; "Extras"].

Definition sample_clock (n : nat) : Z := 1700000000 + Z.of_nat n.
Definition sample_shell (n : nat) (command : string) (f : filesystem) : option filesystem :=
  Some f.
Definition sample_token (n : nat) (endpoint username password : string) : option string :=
  Some "token".
Definition sample_sign (n : nat) (endpoint token : string) (keyid : option string)
    (mode : string) (c : content) : option string := Some "signed".
Definition sample_interpolate (c : Ini.config) (section key value : string) : option string :=
  Some value.
Definition sample_latest : Path := parse "/env/pungi-results/latest-AlmaLinux-8".




(** Two variants, each with an [iso] directory and its checksum file. *)
Definition checksum_entries : list (list string * entry) :=
  dirs_of [["c"]; ["c"; "A"]; ["c"; "A"; "x86_64"]; ["c"; "A"; "x86_64"; "iso"];
           ["c"; "B"]; ["c"; "B"; "x86_64"]; ["c"; "B"; "x86_64"; "iso"]]
  ++ [ (["c"; "A"; "x86_64"; "iso"; "a.iso"], EFile 1);
       (["c"; "A"; "x86_64"; "iso"; "CHECKSUM"], EFile 2);
       (["c"; "B"; "x86_64"; "iso"; "b.iso"], EFile 3);
       (["c"; "B"; "x86_64"; "iso"; "CHECKSUM"], EFile 4) ].

Definition checksum_inodes : list (nat * content) :=
  [(1, Raw "image a"); (2, Raw "sum of a;"); (3, Raw "image b"); (4, Raw "sum of b;")].

Definition checksum_world : world :=
  mkWorld (mkFs (list_to_map checksum_entries) (list_to_map checksum_inodes) [] MAXSYMLINKS)
    [] [] 0.



(** The options of a run that takes [Extras] from a middle result. *)
Definition middle_args : arguments :=
  mkArguments "/env" None None None None (Some "/middle") "x86_64" "/repos"
    ["BaseOS"; "Extras"] ["Extras"] ["Minimal"].

(** *** Checks over the finitely many entries of a file system *)









Section Pipeline.

(** The outside world.  Every reading is indexed by the number of readings
    taken before it, so two readings need not agree. *)

(** [int(time())] *)
Variable clock : nat -> Z.
(** [check_call(command, shell=True)]: what the command does to the file
    system, [None] for a non-zero exit status *)
Variable shell : nat -> string -> filesystem -> option filesystem.
(** the token the signing service answers with to [POST endpoint/token],
    [None] for an error status *)
Variable post_token : nat -> string -> string -> string -> option string.
(** the text the signing service answers with to [POST endpoint/sign]
    for a token, a key id, a sign type and the content of a file *)
Variable post_sign : nat -> string -> string -> option string -> string -> content -> option string.
(** [BasicInterpolation.before_get] on a value with a percent sign *)
Variable interpolate : Ini.config -> string -> string -> string -> option string.

Definition time (w : world) : Z * world := (clock (ticks w), tick w).

(** [check_call(command, shell=True)] *)
Definition check_call (command : string) (w : world) : option world :=
  match shell (ticks w) command (fs w) with
  | Some fs' => Some (mkWorld fs' (log w) (calls w ++ [command]) (S (ticks w)))
  | None => None
  end.

(** *** Signer *)

Record Signer := mkSigner { endpoint : string; token : string }.

(** [Signer(username, password, endpoint)] *)
Definition Signer_init (username password endpoint_ : string) (w : world)
  : option (Signer * world) :=
  match post_token (ticks w) endpoint_ username password with
  | Some t => Some (mkSigner endpoint_ t, tick w)
  | None => None
  end.

Inductive sign_type := detach_sign | clear_sign.

Definition sign_type_name (t : sign_type) : string :=
  match t with detach_sign => "detach-sign" | clear_sign => "clear-sign" end.

(** [signer.sign(file_path, keyid, sign_type)] *)
Definition Signer_sign (signer : Signer) (file_path : Path) (keyid : option string)
    (t : sign_type) (w : world) : option (Path * world) :=
  match read_file (fs w) file_path with
  | Some c =>
      match post_sign (ticks w) (endpoint signer) (token signer) keyid (sign_type_name t) c with
      | Some text =>
          let w := tick w in
          match (match t with
                 | detach_sign => add_suffix file_path ".asc"
                 | clear_sign => Some file_path
                 end) with
          | Some file_path' =>
              match write_file (fs w) file_path' (Raw text) with
              | Some fs' => Some (file_path', with_fs w fs')
              | None => None
              end
          | None => None
          end
      | None => None
      end
  | None => None
  end.

(** [Signer.verify(file_path)] *)
Definition Signer_verify (file_path : Path) (w : world) : option world :=
  if String.eqb (suffix file_path) ".asc" then
    match drop_suffix file_path with
    | Some signed =>
        check_call ("gpg --verify " +:+ str file_path +:+ " " +:+ str signed) w
    | None => None
    end
  else check_call ("gpg --verify " +:+ str file_path) w.

(** *** Tree reorganisation *)

Definition move_sources_folder_to_right_place (latest_path : Path) (repo_name : string)
    (w : world) : option world :=
  let src_of_sources := joinpath latest_path [repo_name; "source"] in
  match PATH_DICTIONARY "source" with
  | Some sources_suffix =>
      let dst_of_sources := joinpath latest_path [repo_name; sources_suffix] in
      if exists_ (fs w) src_of_sources then
        let w := logging_info (MsgMoveSources (str latest_path) repo_name) w in
        match rename (fs w) (joinpath src_of_sources ["tree"]) dst_of_sources with
        | Some fs1 => on_fs (fun f => rmtree f src_of_sources) (with_fs w fs1)
        | None => None
        end
      else Some w
  | None => None
  end.

Definition move_debug_folder_to_right_place (latest_path : Path) (repo_name arch : string)
    (w : world) : option world :=
  let src_of_debug := joinpath latest_path [repo_name; arch; "debug"] in
  match PATH_DICTIONARY "debug" with
  | Some debug_suffix =>
      let dst_of_debug := joinpath latest_path [repo_name; Str.format_arch debug_suffix arch] in
      if exists_ (fs w) src_of_debug then
        let w := logging_info (MsgMoveDebug (str latest_path) arch repo_name) w in
        match makedirs (fs w) (parent dst_of_debug) true with
        | Some fs1 =>
            match rename fs1 (joinpath src_of_debug ["tree"]) dst_of_debug with
            | Some fs2 => on_fs (fun f => rmtree f src_of_debug) (with_fs w fs2)
            | None => None
            end
        | None => None
        end
      else Some w
  | None => None
  end.

(** *** Updateinfo injection *)

Definition updateinfo_pattern (repo_name arch : string) : string :=
  "platform-almalinux-[0-9]-" +:+ Str.lower repo_name +:+ "-" +:+ arch
  +:+ "/repodata/*updateinfo*".

Definition copy_updateinfo_from_platform_repos (src_repos_path latest_path : Path)
    (repo_name arch : string) (w : world) : option world :=
  let dst_path := joinpath latest_path [repo_name; arch; "os"] in
  if negb (exists_ (fs w) dst_path) then Some w
  else
    match glob (fs w) src_repos_path (updateinfo_pattern repo_name arch) with
    | path :: _ =>
        let dst_file := joinpath dst_path ["repodata"; name path] in
        if exists_ (fs w) dst_file then Some w
        else
          let w := logging_info (MsgCopyUpdateinfo repo_name) w in
          match copy (fs w) path dst_file with
          | Some fs1 =>
              let dst_repodata_path := joinpath dst_path ["repodata"] in
              let w := logging_info (MsgModifyRepo repo_name) (with_fs w fs1) in
              check_call ("modifyrepo_c --mdtype=updateinfo " +:+ str dst_file +:+ " "
                          +:+ str dst_repodata_path) w
          | None => None
          end
    | [] => Some (logging_warning (MsgUpdateinfoMissing repo_name) w)
    end.

(** *** Signing of the repository metadata *)

Definition sign_and_verify (username password endpoint_ : string) (keyid : option string)
    (t : sign_type) (file_path : Path) (w : world) : option world :=
  match Signer_init username password endpoint_ w with
  | Some (signer, w1) =>
      match Signer_sign signer file_path keyid t w1 with
      | Some (signed, w2) => Signer_verify signed w2
      | None => None
      end
  | None => None
  end.

Definition sign_repomd_xml (latest_path : Path) (repo_name arch : string)
    (pgp_keyid : option string) (username password endpoint_ : string) (w : world)
    : option world :=
  let repomd_xml_path_suffix := "repodata/repomd.xml" in
  let os_repomd_xml_path := joinpath latest_path [repo_name; arch; "os"; repomd_xml_path_suffix] in
  let kickstart_repomd_xml_path :=
    joinpath latest_path [repo_name; arch; "kickstart"; repomd_xml_path_suffix] in
  match PATH_DICTIONARY "source", PATH_DICTIONARY "debug" with
  | Some sources_suffix, Some debug_suffix =>
      let source_repomd_xml_path :=
        joinpath latest_path [repo_name; sources_suffix; repomd_xml_path_suffix] in
      let debug_repomd_xml_path :=
        joinpath latest_path
          [repo_name; Str.format_arch debug_suffix arch; repomd_xml_path_suffix] in
      let w := logging_info (MsgSignRepomd repo_name) w in
      for_each [os_repomd_xml_path; kickstart_repomd_xml_path;
                source_repomd_xml_path; debug_repomd_xml_path]
        (fun repomd_xml_path w =>
           if negb (exists_ (fs w) repomd_xml_path) then Some w
           else sign_and_verify username password endpoint_ pgp_keyid detach_sign
                  repomd_xml_path w)
        w
  | _, _ => None
  end.

(** *** Kickstart mirror *)

Definition create_kickstart_folder (latest_path : Path) (repo_name arch : string)
    (w : world) : option world :=
  let src_kickstart := joinpath latest_path [repo_name; arch; "os"] in
  let dst_kickstart := joinpath latest_path [repo_name; arch; "kickstart"] in
  if exists_ (fs w) src_kickstart && negb (exists_ (fs w) dst_kickstart) then
    let w := logging_info (MsgMakeKickstart (str latest_path) repo_name arch) w in
    match copytree (fs w) src_kickstart dst_kickstart os_link with
    | Some fs1 =>
        let w := logging_info MsgCopyRepodata (with_fs w fs1) in
        let repodata_dst_path := joinpath dst_kickstart ["repodata"] in
        let repodata_src_path := joinpath src_kickstart ["repodata"] in
        match rmtree (fs w) repodata_dst_path with
        | Some fs2 =>
            on_fs (fun f => copytree f repodata_src_path repodata_dst_path copy2)
              (with_fs w fs2)
        | None => None
        end
    | None => None
    end
  else Some w.

(** *** The install-tree descriptor *)

(** [ConfigParser.read(path)]: a file that cannot be opened is skipped,
    one that does not parse raises. *)
Definition config_read (f : filesystem) (p : Path) : option Ini.config :=
  match resolve f p with
  | Some k =>
      match node (entries f) k with
      | Some (EFile i) =>
          match inodes f !! i with
          | Some (IniDoc c) => Some c
          | Some _ => None
          | None => Some Ini.empty
          end
      | _ => Some Ini.empty
      end
  | None => Some Ini.empty
  end.

(** [config.get(section, option)] *)
Definition config_get (c : Ini.config) (section key : string) : option string :=
  match Ini.get_raw c section key with
  | Some v => if Str.has_char "%" v then interpolate c section key v else Some v
  | None => None
  end.

Definition update_timestamp_in_treeinfo (tree_info_path : Path) (timestamp : Z)
    (w : world) : option world :=
  if negb (exists_ (fs w) tree_info_path) then Some w
  else
    match config_read (fs w) tree_info_path with
    | Some tree_info_config =>
        match Ini.set tree_info_config "general" "timestamp" (pretty timestamp) with
        | Some c1 =>
            match Ini.set c1 "tree" "build_timestamp" (pretty timestamp) with
            | Some c2 =>
                let w := logging_info (MsgUpdateTimestamp timestamp (str tree_info_path)) w in
                on_fs (fun f => write_file f tree_info_path (IniDoc c2)) w
            | None => None
            end
        | None => None
        end
    | None => None
    end.

Definition update_kickstart_treeinfo_file (tree_info_path : string) (w : world)
    : option world :=
  let p := parse tree_info_path in
  match config_read (fs w) p with
  | Some tree_info_config =>
      let w := logging_info (MsgUpdateKickstartTreeinfo tree_info_path) w in
      let section_name := "variant-" +:+ INCLUDED_TO_KICKSTART_REPO in
      match
        (if Ini.has_section tree_info_config section_name then
           match config_get tree_info_config section_name "packages",
                 config_get tree_info_config section_name "repository" with
           | Some packages, Some repository =>
               match Ini.set tree_info_config section_name "packages"
                       (Str.replace "os" "kickstart" packages) with
               | Some c1 =>
                   Ini.set c1 section_name "repository"
                     (Str.replace "os" "kickstart" repository)
               | None => None
               end
           | _, _ => None
           end
         else Some tree_info_config)
      with
      | Some c' =>
          match unlink (fs w) p with
          | Some fs1 => on_fs (fun f => write_file f p (IniDoc c')) (with_fs w fs1)
          | None => None
          end
      | None => None
      end
  | None => None
  end.

Definition sign_isos_checksum (latest_path : Path) (arch : string)
    (pgp_keyid : option string) (username password endpoint_ : string) (w : world)
    : option world :=
  let w := logging_info MsgSignChecksum w in
  let checksum_path := joinpath latest_path ["isos"; arch; "CHECKSUM"] in
  if negb (exists_ (fs w) checksum_path) then Some (logging_warning MsgChecksumAbsent w)
  else sign_and_verify username password endpoint_ pgp_keyid clear_sign checksum_path w.

(** *** Manifest rewriting *)

(** The body of the innermost loop of [post_processing_rpms_json_metadata]:
    what one artifact of the rpms manifest becomes. *)
Definition rewrite_artifact (variant arch : string) (artifact_data : json) : option json :=
  match subscript artifact_data "category" with
  | Some category =>
      match PATH_DICTIONARY_json category with
      | Some None => Some artifact_data
      | Some (Some path_suffix) =>
          let path_suffix := Str.format_arch path_suffix arch in
          match artifact_data, subscript artifact_data "path" with
          | JObj fields, Some (JStr p) =>
              let artifact_path := parse p in
              Some (JObj (dict_set "path"
                            (JStr (str (joinpath (parse variant)
                                          [path_suffix; name (parent artifact_path);
                                           name artifact_path])))
                            fields))
          | _, _ => None
          end
      | None => None
      end
  | None => None
  end.

(** The loops over [content['payload']['rpms']]. *)
Definition rewrite_rpms (rpms : json) : option json :=
  for_keys rpms (fun variant variant_data =>
    if String.eqb variant "Minimal" then Some variant_data
    else
      for_keys variant_data (fun arch arch_data =>
        for_keys arch_data (fun srpm srpm_data =>
          for_keys srpm_data (fun artifact artifact_data =>
            rewrite_artifact variant arch artifact_data)))).

(** [if 'Minimal' in d: del d['Minimal']] *)
Definition del_Minimal (d : json) : option json :=
  match contains_key d "Minimal" with
  | Some true =>
      match d with
      | JObj fields => Some (JObj (dict_del "Minimal" fields))
      | _ => None
      end
  | Some false => Some d
  | None => None
  end.

(** What [post_processing_rpms_json_metadata] writes for the document it
    read. *)
Definition rpms_content (content : json) : option json :=
  match payload content "rpms" with
  | Some rpms =>
      match rewrite_rpms rpms with
      | Some rpms1 =>
          match del_Minimal rpms1 with
          | Some rpms2 => set_payload content "rpms" rpms2
          | None => None
          end
      | None => None
      end
  | None => None
  end.

(** The loop over the architectures of one path type of the composeinfo
    manifest. *)
Definition rewrite_path_data (variant path_type : string) (path_data : json) : option json :=
  for_items path_data (fun arch path =>
    match PATH_DICTIONARY path_type with
    | None => Some path
    | Some path_suffix =>
        let path_suffix := Str.format_arch path_suffix arch in
        Some (JStr (str (joinpath (parse variant) [path_suffix])))
    end).

Definition rewrite_variant_paths (variant : string) (variant_data : json) : option json :=
  match subscript variant_data "paths" with
  | Some variant_paths =>
      if String.eqb variant "Minimal" then Some variant_data
      else
        match for_keys variant_paths (rewrite_path_data variant), variant_data with
        | Some paths', JObj fields => Some (JObj (dict_set "paths" paths' fields))
        | _, _ => None
        end
  | None => None
  end.

Definition rewrite_variants (variants : json) : option json :=
  for_keys variants rewrite_variant_paths.

Definition composeinfo_content (content : json) : option json :=
  match payload content "variants" with
  | Some variants =>
      match rewrite_variants variants with
      | Some variants1 =>
          match del_Minimal variants1 with
          | Some variants2 => set_payload content "variants" variants2
          | None => None
          end
      | None => None
      end
  | None => None
  end.

(** [dict(image, path=...)] for one image of the images manifest *)
Definition rewrite_image (arch : string) (image : json) : option json :=
  match image with
  | JObj fields =>
      match dict_get "path" fields with
      | Some (JStr p) =>
          Some (JObj (dict_set "path"
                        (JStr (str (joinpath (parse "isos") [arch; name (parse p)])))
                        fields))
      | _ => None
      end
  | _ => None
  end.

Fixpoint mapM_json (f : json -> option json) (l : list json) : option (list json) :=
  match l with
  | [] => Some []
  | x :: rest =>
      match f x, mapM_json f rest with
      | Some y, Some rest' => Some (y :: rest')
      | _, _ => None
      end
  end.

(** the list comprehension over [images_list] *)
Definition rewrite_images_list (arch : string) (images_list : json) : option json :=
  match images_list with
  | JArr items =>
      match mapM_json (rewrite_image arch) items with
      | Some items' => Some (JArr items')
      | None => None
      end
  | JObj [] => Some (JArr [])
  | JStr EmptyString => Some (JArr [])
  | _ => None
  end.

Definition rewrite_images (images : json) : option json :=
  for_keys images (fun variant variant_data =>
    for_items variant_data rewrite_images_list).

Definition images_content (content : json) : option json :=
  match payload content "images" with
  | Some images =>
      match rewrite_images images with
      | Some images' => set_payload content "images" images'
      | None => None
      end
  | None => None
  end.

(** [json.load] of the file at [p] *)
Definition json_load (f : filesystem) (p : Path) : option json :=
  match read_file f p with
  | Some (JsonDoc j) => Some j
  | _ => None
  end.

(** The shape the three [post_processing_*_json_metadata] functions share:
    the manifest [file] of the architecture is read, rewritten and written
    back; a missing manifest is a warning. *)
Definition post_processing_json (file : string) (rewrite : json -> option json)
    (latest_path : Path) (arch : string) (w : world) : option world :=
  let json_path := joinpath latest_path ["metadata"; arch; file] in
  let w := logging_info (MsgPostProcessing file) w in
  if negb (exists_ (fs w) json_path) then Some (logging_warning (MsgManifestAbsent file) w)
  else
    match json_load (fs w) json_path with
    | Some content =>
        match rewrite content with
        | Some content' => on_fs (fun f => write_file f json_path (JsonDoc content')) w
        | None => None
        end
    | None => None
    end.

Definition post_processing_images_json_metadata :=
  post_processing_json "images.json" images_content.

Definition post_processing_rpms_json_metadata :=
  post_processing_json "rpms.json" rpms_content.

Definition post_processing_compose_info_json_metadata :=
  post_processing_json "composeinfo.json" composeinfo_content.

Definition move_json_metadata_to_arch_folder (latest_path : Path) (arch : string)
    (w : world) : option world :=
  let extension := "*.json" in
  let metadata_path := joinpath latest_path ["metadata"] in
  let metadata_arch_path := joinpath metadata_path [arch] in
  match makedirs (fs w) metadata_arch_path true with
  | Some fs1 =>
      let w := with_fs w fs1 in
      for_each (glob (fs w) metadata_path extension)
        (fun json_metadata w =>
           let w := logging_info (MsgCopyJson (str json_metadata) (str metadata_arch_path)) w in
           on_fs (fun f => rename f json_metadata
                             (joinpath metadata_arch_path [name json_metadata])) w)
        w
  | None => None
  end.

(** *** ISO collection *)

(** The body of the inner loop of
    [move_iso_and_its_artifacts_to_isos_arch_folder]: one matched file. *)
Definition move_iso_file (isos_arch_folder src_file_path : Path) (w : world) : option world :=
  let dst_file_path := joinpath isos_arch_folder [name src_file_path] in
  if negb (exists_ (fs w) src_file_path) then Some w
  else if exists_ (fs w) dst_file_path then Some w
  else
    let w := logging_info (MsgMoveIso (str src_file_path) (str dst_file_path)) w in
    on_fs (fun f => rename f src_file_path dst_file_path) w.

(** The two nested loops of [move_iso_and_its_artifacts_to_isos_arch_folder]. *)
Definition move_iso_files (src_iso_folder_path isos_arch_folder : Path)
    (exts_of_files : list string) (w : world) : option world :=
  for_each exts_of_files
    (fun ext_of_file w =>
       for_each (glob (fs w) src_iso_folder_path ext_of_file)
         (move_iso_file isos_arch_folder) w)
    w.

(** The checksum of the variant appended to the shared one. *)
Definition append_checksum (src_checksum_path dst_checksum_path : Path) (w : world)
    : option world :=
  if exists_ (fs w) src_checksum_path then
    let w := logging_info (MsgWriteChecksum (str src_checksum_path) (str dst_checksum_path)) w in
    match read_file (fs w) src_checksum_path, text_or_empty (fs w) dst_checksum_path with
    | Some (Raw src_checksum_content), Some _ =>
        on_fs (fun f => append_file f dst_checksum_path src_checksum_content) w
    | _, _ => None
    end
  else Some w.

(** [move_iso_and_its_artifacts_to_isos_arch_folder] up to, and without,
    its last statement, the [rmtree] of the iso folder. *)
Definition collect_iso_folder (src_latest_path : Path) (repo_name arch : string)
    (exts_of_files : list string) (dst_latest_path : option Path) (w : world)
    : option world :=
  let src_iso_folder_path := joinpath src_latest_path [repo_name; arch; "iso"] in
  let isos_arch_folder :=
    joinpath (match dst_latest_path with Some d => d | None => src_latest_path end)
      ["isos"; arch] in
  match move_iso_files src_iso_folder_path isos_arch_folder exts_of_files w with
  | Some w1 =>
      let src_checksum_path := joinpath src_latest_path [repo_name; arch; "iso"; "CHECKSUM"] in
      let dst_checksum_path := joinpath isos_arch_folder ["CHECKSUM"] in
      append_checksum src_checksum_path dst_checksum_path w1
  | None => None
  end.

Definition move_iso_and_its_artifacts_to_isos_arch_folder (src_latest_path : Path)
    (repo_name arch : string) (exts_of_files : list string) (dst_latest_path : option Path)
    (w : world) : option world :=
  let src_iso_folder_path := joinpath src_latest_path [repo_name; arch; "iso"] in
  let isos_arch_folder :=
    joinpath (match dst_latest_path with Some d => d | None => src_latest_path end)
      ["isos"; arch] in
  match makedirs (fs w) isos_arch_folder true with
  | Some fs1 =>
      let w := with_fs w fs1 in
      if negb (exists_ (fs w) src_iso_folder_path) then Some w
      else
        match collect_iso_folder src_latest_path repo_name arch exts_of_files
                dst_latest_path w with
        | Some w2 => on_fs (fun f => rmtree f src_iso_folder_path) w2
        | None => None
        end
  | None => None
  end.

(** *** Promotion *)

Definition IN_PROGRESS_PREFIX : string := "last_compose_dir".

Definition rename_latest_dir (latest_path : Path) (w : world) : option world :=
  match readlink (fs w) (parent latest_path) with
  | Some target =>
      let old_real_name := name (parse target) in
      if negb (Str.startswith IN_PROGRESS_PREFIX old_real_name) then Some w
      else
        let old_real_name_path := joinpath (parent (parent latest_path)) [old_real_name] in
        let '(now, w) := time w in
        let new_real_name := pretty now +:+ "-" +:+ old_real_name in
        let new_real_name_path := joinpath (parent (parent latest_path)) [new_real_name] in
        let w := logging_info (MsgNewRealName (str new_real_name_path)) w in
        let w := logging_info (MsgOldRealName (str old_real_name_path)) w in
        if negb (exists_ (fs w) old_real_name_path) then Some w
        else
          let w := logging_info (MsgAddTimestamp (str new_real_name_path)) w in
          match rename (fs w) old_real_name_path new_real_name_path with
          | Some fs1 =>
              match unlink fs1 (parent latest_path) with
              | Some fs2 =>
                  on_fs (fun f => symlink f (str new_real_name_path) (parent latest_path))
                    (with_fs w fs2)
              | None => None
              end
          | None => None
          end
  | None => None
  end.

(** *** The command line *)

Definition extensions_of_files : list string := ["*.iso"; "*.manifest"].

(** the three sign-service options, when none of them is [None] *)
Definition sign_service (args : arguments) : option (string * string * string) :=
  match sign_service_username args, sign_service_password args, sign_service_endpoint args with
  | Some u, Some p, Some e => Some (u, p, e)
  | _, _, _ => None
  end.

Definition string_in (x : string) (l : list string) : bool := existsb (String.eqb x) l.

(** The body of [for repo in args.repos]. *)
Definition process_repo (args : arguments) (latest_path : Path) (build_timestamp : Z)
    (repo : string) (w : world) : option world :=
  if negb (exists_ (fs w) (joinpath latest_path [repo])) then Some w
  else if string_in repo (middle_repos args) then
    let not_needed_repo_path := joinpath latest_path [repo] in
    if exists_ (fs w) not_needed_repo_path
    then on_fs (fun f => rmtree f not_needed_repo_path) w
    else Some w
  else
    w ← move_sources_folder_to_right_place latest_path repo w;
    w ← move_debug_folder_to_right_place latest_path repo (arch_ args) w;
    w ← copy_updateinfo_from_platform_repos (parse (source_repos_folder args)) latest_path
          repo (arch_ args) w;
    w ← create_kickstart_folder latest_path repo (arch_ args) w;
    w ← match sign_service args with
        | Some (username, password, endpoint_) =>
            sign_repomd_xml latest_path repo (arch_ args) (pgp_sign_keyid args)
              username password endpoint_ w
        | None => Some w
        end;
    w ← move_iso_and_its_artifacts_to_isos_arch_folder latest_path repo (arch_ args)
          extensions_of_files None w;
    let repo_path := joinpath latest_path [repo] in
    for_each (rglob (fs w) repo_path ".treeinfo")
      (fun path w =>
         w ← update_timestamp_in_treeinfo path build_timestamp w;
         if String.eqb (name (parent path)) "kickstart"
         then update_kickstart_treeinfo_file (str path) w
         else Some w)
      w.

(** The loop over [args.not_needed_repos]. *)
Definition remove_not_needed_repos (args : arguments) (latest_path : Path) (w : world)
    : option world :=
  for_each (not_needed_repos args)
    (fun repo w =>
       let not_needed_repo_path := joinpath latest_path [repo] in
       if exists_ (fs w) not_needed_repo_path then
         let w := logging_info (MsgRemoveNotNeeded repo (str not_needed_repo_path)) w in
         on_fs (fun f => rmtree f not_needed_repo_path) w
       else Some w)
    w.

(** The body of [for latest_path in latest_result_paths] up to the loop
    over the not-needed repositories, that loop included. *)
Definition process_latest_result_tree (args : arguments) (latest_result_path : Path)
    (w : world) : option world :=
  let latest_path := joinpath latest_result_path ["compose"] in
  let '(build_timestamp, w) := time w in
  w ← for_each (repos args) (process_repo args latest_path build_timestamp) w;
  w ← move_json_metadata_to_arch_folder latest_path (arch_ args) w;
  w ← post_processing_compose_info_json_metadata latest_path (arch_ args) w;
  w ← post_processing_rpms_json_metadata latest_path (arch_ args) w;
  w ← post_processing_images_json_metadata latest_path (arch_ args) w;
  w ← match sign_service args with
      | Some (username, password, endpoint_) =>
          sign_isos_checksum latest_path (arch_ args) (pgp_sign_keyid args)
            username password endpoint_ w
      | None => Some w
      end;
  w ← for_each (middle_repos args)
        (fun repo w =>
           match middle_result_directory args with
           | Some d =>
               move_iso_and_its_artifacts_to_isos_arch_folder
                 (joinpath (parse d) ["compose"]) repo (arch_ args) extensions_of_files
                 (Some latest_path) w
           | None => Some w
           end) w;
  remove_not_needed_repos args latest_path w.

(** The whole body of [for latest_path in latest_result_paths]. *)
Definition process_latest_result (args : arguments) (latest_result_path : Path)
    (w : world) : option world :=
  w ← process_latest_result_tree args latest_result_path w;
  rename_latest_dir (joinpath latest_result_path ["compose"]) w.

(** A Python generator: the items it has not produced yet. *)
Record generator (A : Type) := mkGenerator { pending : list A }.
Arguments mkGenerator {A} _.
Arguments pending {A} _.

(** [list(g)]: every pending item is produced, and none is left in [g]. *)
Definition list_of_generator {A} (g : generator A) : list A * generator A :=
  (pending g, mkGenerator []).

(** [for x in g] runs over what is still pending in [g]. *)
Definition for_generator {A} (g : generator A) (body : A -> world -> option world)
    (w : world) : option world :=
  for_each (pending g) body w.

Definition cli_main (args : arguments) (w : world) : option world :=
  let pungi_results := joinpath (parse (env_path args)) [PUNGI_RESULTS] in
  let latest_result_paths := mkGenerator (glob (fs w) pungi_results "latest-*") in
  let '(logged, latest_result_paths) := list_of_generator latest_result_paths in
  let w := logging_info (MsgLatestResults (List.map str logged)) w in
  w ← for_generator latest_result_paths (process_latest_result args) w;
  match middle_result_directory args with
  | Some d =>
      if exists_ (fs w) (parse d) then on_fs (fun f => rmtree f (parse d)) w else Some w
  | None => Some w
  end.

(** the artifact [content['payload']['rpms'][variant][arch][srpm][artifact]] *)
Definition artifact_at (content : json) (variant arch srpm artifact : string) : option json :=
  rpms ← payload content "rpms";
  variant_data ← subscript rpms variant;
  arch_data ← subscript variant_data arch;
  srpm_data ← subscript arch_data srpm;
  subscript srpm_data artifact.

(** the path [content['payload']['variants'][variant]['paths'][path_type][arch]] *)
Definition composeinfo_path_at (content : json) (variant path_type arch : string)
  : option json :=
  variants ← payload content "variants";
  variant_data ← subscript variants variant;
  variant_paths ← subscript variant_data "paths";
  path_data ← subscript variant_paths path_type;
  subscript path_data arch.

(** *** Notions the properties are stated with *)



(** the location a path names when every directory on it is a real one *)
Definition dir_key (f : filesystem) (p : Path) : list string := start f p ++ parts p.

(** every component of the path is a real directory *)
Definition real_dir (f : filesystem) (p : Path) : bool :=
  real_dirs_below (entries f) (start f p) (parts p).






(** the list [content['payload']['images'][variant][arch]] *)
Definition images_at (content : json) (variant arch : string) : option json :=
  images ← payload content "images";
  variant_data ← subscript images variant;
  subscript variant_data arch.

(* ===================================================================== *)
(** ** Properties *)
(* ===================================================================== *)

(** *** Dicts *)

Lemma dict_get_set_eq k v fields : dict_get k (dict_set k v fields) = Some v.
Proof.
  induction fields as [|[k' v'] rest IH]; simpl.
  - by rewrite String.eqb_refl.
  - destruct (String.eqb k k') eqn:E; simpl; rewrite E; [done | apply IH].
Qed.

Lemma dict_get_set_ne k k' v fields :
  k ≠ k' -> dict_get k' (dict_set k v fields) = dict_get k' fields.
Proof.
  intros Hne. induction fields as [|[k0 v0] rest IH]; simpl.
  - destruct (String.eqb k' k) eqn:E; [|done].
    apply String.eqb_eq in E. congruence.
  - destruct (String.eqb k k0) eqn:E; simpl.
    + apply String.eqb_eq in E. subst k0.
      destruct (String.eqb k' k) eqn:E'; [|done].
      apply String.eqb_eq in E'. congruence.
    + destruct (String.eqb k' k0); [done | apply IH].
Qed.

Lemma dict_get_del_eq k fields : dict_get k (dict_del k fields) = None.
Proof.
  induction fields as [|[k' v'] rest IH]; simpl; [done|].
  destruct (String.eqb k k') eqn:E; simpl; [apply IH|].
  rewrite E. apply IH.
Qed.

Lemma dict_get_del_ne k k' fields :
  k ≠ k' -> dict_get k' (dict_del k fields) = dict_get k' fields.
Proof.
  intros Hne. induction fields as [|[k0 v0] rest IH]; simpl; [done|].
  destruct (String.eqb k k0) eqn:E; simpl.
  - apply String.eqb_eq in E. subst k0.
    destruct (String.eqb k' k) eqn:E'; [|apply IH].
    apply String.eqb_eq in E'. congruence.
  - destruct (String.eqb k' k0); [done | apply IH].
Qed.

(** A loop over the keys of a dict changes the value of a key to what its
    body makes of it. *)
Lemma dict_mapM_get body fields fields' k v :
  dict_mapM body fields = Some fields' ->
  dict_get k fields = Some v ->
  exists v', body k v = Some v' /\ dict_get k fields' = Some v'.
Proof.
  revert fields'. induction fields as [|[k0 v0] rest IH]; intros fields' Hm Hg; [done|].
  simpl in Hm, Hg.
  destruct (body k0 v0) as [v0'|] eqn:Hb; [|done].
  destruct (dict_mapM body rest) as [rest'|] eqn:Hr; [|done].
  injection Hm as <-. simpl.
  destruct (String.eqb k k0) eqn:E.
  - apply String.eqb_eq in E. subst k0. injection Hg as ->. eauto.
  - by apply IH.
Qed.


Lemma for_keys_subscript body d d' k v :
  for_keys d body = Some d' ->
  subscript d k = Some v ->
  exists v', body k v = Some v' /\ subscript d' k = Some v'.
Proof.
  intros Hf Hs. destruct d as [| | | |items|fields]; try done.
  simpl in Hf, Hs.
  destruct (dict_mapM body fields) as [fields'|] eqn:Hm; [|done].
  injection Hf as <-. simpl. eauto using dict_mapM_get.
Qed.

Lemma for_items_subscript body d d' k v :
  for_items d body = Some d' ->
  subscript d k = Some v ->
  exists v', body k v = Some v' /\ subscript d' k = Some v'.
Proof.
  intros Hf Hs. destruct d as [| | | |items|fields]; try done.
  simpl in Hf, Hs.
  destruct (dict_mapM body fields) as [fields'|] eqn:Hm; [|done].
  injection Hf as <-. simpl. eauto using dict_mapM_get.
Qed.


Lemma payload_set_payload content section v content' :
  set_payload content section v = Some content' ->
  payload content' section = Some v.
Proof.
  unfold set_payload, payload. intros H.
  destruct content as [| | | | |fields]; try done.
  destruct (dict_get "payload" fields) as [[| | | | |pf]|]; try done.
  destruct (dict_get section pf); [|done].
  injection H as <-. simpl.
  rewrite dict_get_set_eq. simpl. apply dict_get_set_eq.
Qed.

(** [del_Minimal] leaves no key [Minimal] and keeps every other key. *)
Lemma del_Minimal_subscript d d' k :
  del_Minimal d = Some d' ->
  subscript d' k = if String.eqb k "Minimal" then None else subscript d k.
Proof.
  unfold del_Minimal. intros H.
  destruct (contains_key d "Minimal") as [[|]|] eqn:Hc; [| |done].
  - destruct d as [| | | | |fields]; try done.
    injection H as <-. simpl.
    destruct (String.eqb k "Minimal") eqn:E.
    + apply String.eqb_eq in E. subst. apply dict_get_del_eq.
    + apply dict_get_del_ne. intros <-. by rewrite String.eqb_refl in E.
  - injection H as <-.
    destruct (String.eqb k "Minimal") eqn:E; [|done].
    apply String.eqb_eq in E. subst.
    destruct d as [| | | | |fields]; try done.
    simpl in *. by destruct (dict_get "Minimal" fields).
Qed.

(** *** The rpms manifest *)

Lemma rewrite_rpms_artifact rpms rpms' variant arch srpm artifact
    variant_data arch_data srpm_data data :
  rewrite_rpms rpms = Some rpms' ->
  variant ≠ "Minimal" ->
  subscript rpms variant = Some variant_data ->
  subscript variant_data arch = Some arch_data ->
  subscript arch_data srpm = Some srpm_data ->
  subscript srpm_data artifact = Some data ->
  exists variant_data' arch_data' srpm_data' data',
    rewrite_artifact variant arch data = Some data'
    /\ subscript rpms' variant = Some variant_data'
    /\ subscript variant_data' arch = Some arch_data'
    /\ subscript arch_data' srpm = Some srpm_data'
    /\ subscript srpm_data' artifact = Some data'.
Proof.
  intros Hr Hne Hv Ha Hs Hd. unfold rewrite_rpms in Hr.
  destruct (for_keys_subscript _ _ _ _ _ Hr Hv) as (vd' & Hbody & Hv').
  destruct (String.eqb variant "Minimal") eqn:E.
  { apply String.eqb_eq in E. done. }
  destruct (for_keys_subscript _ _ _ _ _ Hbody Ha) as (ad' & Hbody2 & Ha').
  destruct (for_keys_subscript _ _ _ _ _ Hbody2 Hs) as (sd' & Hbody3 & Hs').
  destruct (for_keys_subscript _ _ _ _ _ Hbody3 Hd) as (d' & Hbody4 & Hd').
  exists vd', ad', sd', d'. done.
Qed.

(** What [rpms_content] leaves under a variant other than [Minimal]. *)
Lemma rpms_content_artifact content content' variant arch srpm artifact data :
  rpms_content content = Some content' ->
  variant ≠ "Minimal" ->
  artifact_at content variant arch srpm artifact = Some data ->
  exists data',
    rewrite_artifact variant arch data = Some data'
    /\ artifact_at content' variant arch srpm artifact = Some data'.
Proof.
  unfold rpms_content, artifact_at. intros Hc Hne Hat.
  destruct (payload content "rpms") as [rpms|] eqn:Hp; [|done].
  destruct (rewrite_rpms rpms) as [rpms1|] eqn:Hr; [|done].
  destruct (del_Minimal rpms1) as [rpms2|] eqn:Hdel; [|done].
  simpl in Hat.
  destruct (subscript rpms variant) as [vd|] eqn:Hv; [|done]. simpl in Hat.
  destruct (subscript vd arch) as [ad|] eqn:Ha; [|done]. simpl in Hat.
  destruct (subscript ad srpm) as [sd|] eqn:Hs; [|done]. simpl in Hat.
  destruct (rewrite_rpms_artifact _ _ _ _ _ _ _ _ _ _ Hr Hne Hv Ha Hs Hat)
    as (vd' & ad' & sd' & d' & Hrw & Hv' & Ha' & Hs' & Hd').
  exists d'. split; [done|].
  rewrite (payload_set_payload _ _ _ _ Hc). simpl.
  rewrite (del_Minimal_subscript _ _ variant Hdel).
  destruct (String.eqb variant "Minimal") eqn:E.
  { apply String.eqb_eq in E. done. }
  rewrite Hv'. simpl. rewrite Ha'. simpl. rewrite Hs'. simpl. done.
Qed.

(** *** Strings and paths *)

Lemma append_cons c (s t : string) : String c s +:+ t = String c (s +:+ t).
Proof. reflexivity. Qed.

Lemma append_nil_l (s : string) : "" +:+ s = s.
Proof. reflexivity. Qed.




Lemma split_on_nonempty c s : Str.split_on c s ≠ [].
Proof.
  destruct s as [|d s]; simpl; [done|].
  destruct (Ascii.eqb d c); [done|]. by destruct (Str.split_on c s).
Qed.

Lemma split_on_no_sep c s : Str.has_char c s = false -> Str.split_on c s = [s].
Proof.
  induction s as [|d s IH]; simpl; [done|].
  intros H. apply orb_false_iff in H as [H1 H2].
  rewrite Ascii.eqb_sym, H1. by rewrite IH.
Qed.



Lemma root_of_no_slash s : Str.has_char "/" s = false -> root_of s = "".
Proof.
  destruct s as [|[[] [] [] [] [] [] [] []] s']; try reflexivity.
  simpl. discriminate.
Qed.

Lemma plain_name_spec s :
  Str.plain_name s = true -> s ≠ "" /\ s ≠ "." /\ Str.has_char "/" s = false.
Proof.
  unfold Str.plain_name. intros H.
  apply andb_true_iff in H as [H H3]. apply andb_true_iff in H as [H1 H2].
  apply negb_true_iff in H1, H2, H3.
  apply String.eqb_neq in H1, H2. done.
Qed.

(** a plain name is a path of one part *)
Lemma parse_plain s : Str.plain_name s = true -> parse s = mkPath "" [s].
Proof.
  intros H. destruct (plain_name_spec s H) as (H1 & H2 & H3).
  unfold parse. rewrite root_of_no_slash, split_on_no_sep by done.
  simpl. unfold keep_part.
  apply String.eqb_neq in H1, H2. by rewrite H1, H2.
Qed.


Lemma join1_plain p s :
  Str.plain_name s = true -> join1 p s = mkPath (root p) (parts p ++ [s]).
Proof. intros H. unfold join1. by rewrite (parse_plain s H). Qed.

Lemma join_cons sep x l : l ≠ [] -> Str.join sep (x :: l) = x +:+ sep +:+ Str.join sep l.
Proof. by destruct l. Qed.


Lemma name_snoc r l x : name (mkPath r (l ++ [x])) = x.
Proof. unfold name. simpl. apply last_last. Qed.

Lemma parent_snoc r l x : parent (mkPath r (l ++ [x])) = mkPath r l.
Proof. unfold parent. simpl. by rewrite removelast_last. Qed.






(** *** Entries without a canonical subpath *)

Lemma dict_mapM_id body fields :
  (forall k v, body k v = Some v) -> dict_mapM body fields = Some fields.
Proof.
  intros Hb. induction fields as [|[k v] rest IH]; simpl; [done|].
  by rewrite Hb, IH.
Qed.

Lemma rewrite_artifact_unmapped variant arch data category :
  subscript data "category" = Some category ->
  PATH_DICTIONARY_json category = Some None ->
  rewrite_artifact variant arch data = Some data.
Proof. intros Hc Hd. unfold rewrite_artifact. by rewrite Hc, Hd. Qed.

Lemma rewrite_path_data_unmapped variant path_type fields :
  PATH_DICTIONARY path_type = None ->
  rewrite_path_data variant path_type (JObj fields) = Some (JObj fields).
Proof.
  intros Hd. unfold rewrite_path_data. simpl. rewrite Hd.
  by rewrite dict_mapM_id.
Qed.

(** What [composeinfo_content] leaves under a variant other than
    [Minimal]. *)
Lemma composeinfo_content_path content content' variant path_type arch path_data :
  composeinfo_content content = Some content' ->
  variant ≠ "Minimal" ->
  (variants ← payload content "variants";
   variant_data ← subscript variants variant;
   variant_paths ← subscript variant_data "paths";
   subscript variant_paths path_type) = Some path_data ->
  exists path_data',
    rewrite_path_data variant path_type path_data = Some path_data'
    /\ composeinfo_path_at content' variant path_type arch = subscript path_data' arch.
Proof.
  unfold composeinfo_content, composeinfo_path_at. intros Hc Hne Hat.
  destruct (payload content "variants") as [variants|] eqn:Hp; [|done].
  destruct (rewrite_variants variants) as [variants1|] eqn:Hr; [|done].
  destruct (del_Minimal variants1) as [variants2|] eqn:Hdel; [|done].
  simpl in Hat.
  destruct (subscript variants variant) as [vd|] eqn:Hv; [|done]. simpl in Hat.
  destruct (subscript vd "paths") as [vp|] eqn:Hvp; [|done]. simpl in Hat.
  unfold rewrite_variants in Hr.
  destruct (for_keys_subscript _ _ _ _ _ Hr Hv) as (vd' & Hbody & Hv').
  unfold rewrite_variant_paths in Hbody. rewrite Hvp in Hbody.
  destruct (String.eqb variant "Minimal") eqn:E.
  { apply String.eqb_eq in E. done. }
  destruct (for_keys vp (rewrite_path_data variant)) as [paths'|] eqn:Hfk; [|done].
  destruct vd as [| | | | |fields]; try done.
  injection Hbody as <-.
  destruct (for_keys_subscript _ _ _ _ _ Hfk Hat) as (pd' & Hpd & Hpt').
  exists pd'. split; [done|].
  rewrite (payload_set_payload _ _ _ _ Hc). simpl.
  rewrite (del_Minimal_subscript _ _ variant Hdel), E, Hv'. simpl.
  rewrite dict_get_set_eq. simpl. by rewrite Hpt'.
Qed.

(** No entry is left under [Minimal]. *)
Lemma rpms_content_Minimal content content' arch srpm artifact :
  rpms_content content = Some content' ->
  artifact_at content' "Minimal" arch srpm artifact = None.
Proof.
  unfold rpms_content, artifact_at. intros Hc.
  destruct (payload content "rpms") as [rpms|]; [|done].
  destruct (rewrite_rpms rpms) as [rpms1|]; [|done].
  destruct (del_Minimal rpms1) as [rpms2|] eqn:Hdel; [|done].
  rewrite (payload_set_payload _ _ _ _ Hc). simpl.
  by rewrite (del_Minimal_subscript _ _ "Minimal" Hdel).
Qed.

Lemma composeinfo_content_Minimal content content' path_type arch :
  composeinfo_content content = Some content' ->
  composeinfo_path_at content' "Minimal" path_type arch = None.
Proof.
  unfold composeinfo_content, composeinfo_path_at. intros Hc.
  destruct (payload content "variants") as [variants|]; [|done].
  destruct (rewrite_variants variants) as [variants1|]; [|done].
  destruct (del_Minimal variants1) as [variants2|] eqn:Hdel; [|done].
  rewrite (payload_set_payload _ _ _ _ Hc). simpl.
  by rewrite (del_Minimal_subscript _ _ "Minimal" Hdel).
Qed.

(** C9. An artifact of the rpms manifest whose category has no canonical
    subpath, and a path of the composeinfo manifest whose path type has
    none, is passed through: the loop body returns the entry as it is and
    raises nothing, and in the document that is written the entry is the
    one that was read (or, under [Minimal], gone with its variant, which
    both rewriters delete whatever its entries are). *)
Theorem unmapped_entries_pass_through :
  (forall variant arch data category,
      subscript data "category" = Some category ->
      PATH_DICTIONARY_json category = Some None ->
      rewrite_artifact variant arch data = Some data)
  /\ (forall content content' variant arch srpm artifact data category,
        rpms_content content = Some content' ->
        artifact_at content variant arch srpm artifact = Some data ->
        subscript data "category" = Some category ->
        PATH_DICTIONARY_json category = Some None ->
        artifact_at content' variant arch srpm artifact =
          if String.eqb variant "Minimal" then None else Some data)
  /\ (forall variant path_type fields,
        PATH_DICTIONARY path_type = None ->
        rewrite_path_data variant path_type (JObj fields) = Some (JObj fields))
  /\ (forall content content' variant path_type arch path,
        composeinfo_content content = Some content' ->
        composeinfo_path_at content variant path_type arch = Some path ->
        PATH_DICTIONARY path_type = None ->
        composeinfo_path_at content' variant path_type arch =
          if String.eqb variant "Minimal" then None else Some path).
Proof.
  split; [|split; [|split]].
  - apply rewrite_artifact_unmapped.
  - intros content content' variant arch srpm artifact data category Hc Hat Hcat Hd.
    destruct (String.eqb variant "Minimal") eqn:E.
    + apply String.eqb_eq in E. subst. by eapply rpms_content_Minimal.
    + assert (Hne : variant ≠ "Minimal") by (intros ->; by rewrite String.eqb_refl in E).
      destruct (rpms_content_artifact _ _ _ _ _ _ _ Hc Hne Hat) as (data' & Hrw & Hat').
      rewrite (rewrite_artifact_unmapped _ _ _ _ Hcat Hd) in Hrw. by injection Hrw as <-.
  - apply rewrite_path_data_unmapped.
  - intros content content' variant path_type arch path Hc Hat Hd.
    destruct (String.eqb variant "Minimal") eqn:E.
    + apply String.eqb_eq in E. subst. by eapply composeinfo_content_Minimal.
    + assert (Hne : variant ≠ "Minimal") by (intros ->; by rewrite String.eqb_refl in E).
      unfold composeinfo_path_at in Hat.
      destruct (variants ← payload content "variants";
                variant_data ← subscript variants variant;
                variant_paths ← subscript variant_data "paths";
                subscript variant_paths path_type) as [path_data|] eqn:Hpd.
      2:{ destruct (payload content "variants") as [variants|]; [|done]. simpl in *.
          destruct (subscript variants variant) as [vd|]; [|done]. simpl in *.
          destruct (subscript vd "paths") as [vp|]; [|done]. simpl in *.
          by rewrite Hpd in Hat. }
      destruct (composeinfo_content_path _ _ _ _ arch _ Hc Hne Hpd) as (pd' & Hrw & ->).
      assert (Hs : subscript path_data arch = Some path).
      { destruct (payload content "variants") as [variants|]; [|done]. simpl in *.
        destruct (subscript variants variant) as [vd|]; [|done]. simpl in *.
        destruct (subscript vd "paths") as [vp|]; [|done]. simpl in *.
        by rewrite Hpd in Hat. }
      destruct path_data as [| | | | |fields]; try done.
      rewrite (rewrite_path_data_unmapped _ _ _ Hd) in Hrw. by injection Hrw as <-.
Qed.

(** *** Path resolution *)

Lemma walk_nil n m cur : walk n m cur [] = Some cur.
Proof. by destruct n. Qed.

Lemma walk_cons n m cur x rest :
  walk n m cur (x :: rest) =
  match node m cur with
  | Some EDir =>
      if String.eqb x ".." then walk n m (removelast cur) rest
      else
        match m !! (cur ++ [x]) with
        | None => None
        | Some (ELink t) =>
            match n with
            | O => None
            | S n' =>
                walk n' m (if is_absolute (parse t) then [] else cur)
                  (parts (parse t) ++ rest)
            end
        | Some _ => walk n m (cur ++ [x]) rest
        end
  | _ => None
  end.
Proof. by destruct n. Qed.

Lemma node_weaken (m m' : gmap (list string) entry) k e :
  m' ⊆ m -> node m' k = Some e -> node m k = Some e.
Proof.
  intros Hsub. destruct k; simpl; [done|].
  intros H. by eapply lookup_weaken.
Qed.

(** Resolution only reads entries: what resolves in a part of the file
    system resolves to the same place in the whole. *)
Lemma walk_mono (m m' : gmap (list string) entry) n cur ps k :
  m' ⊆ m -> walk n m' cur ps = Some k -> walk n m cur ps = Some k.
Proof.
  intros Hsub. revert cur ps.
  induction n as [|n IHn]; intros cur ps; revert cur;
    induction ps as [|x rest IHps]; intros cur; rewrite ?walk_nil; try done;
    rewrite !walk_cons.
  - destruct (node m' cur) as [[| |]|] eqn:Hn; try done.
    rewrite (node_weaken _ _ _ _ Hsub Hn).
    destruct (String.eqb x ".."); [apply IHps|].
    destruct (m' !! (cur ++ [x])) as [e|] eqn:He; [|done].
    rewrite (lookup_weaken _ _ _ _ He Hsub).
    destruct e; try done; apply IHps.
  - destruct (node m' cur) as [[| |]|] eqn:Hn; try done.
    rewrite (node_weaken _ _ _ _ Hsub Hn).
    destruct (String.eqb x ".."); [apply IHps|].
    destruct (m' !! (cur ++ [x])) as [e|] eqn:He; [|done].
    rewrite (lookup_weaken _ _ _ _ He Hsub).
    destruct e; try done; [apply IHps | apply IHps | apply IHn].
Qed.

(** A path that resolves ends in an entry of the directory its front
    leads to. *)
Lemma walk_snoc_inv m n cur a x k :
  walk n m cur (a ++ [x]) = Some k ->
  String.eqb x ".." = false ->
  exists d, walk n m cur a = Some d /\ is_Some (m !! (d ++ [x])).
Proof.
  intros Hw Hx. revert cur a Hw.
  induction n as [|n IHn]; intros cur a; revert cur;
    induction a as [|y rest IHa]; intros cur; simpl app;
    rewrite ?walk_nil, !walk_cons.
  - destruct (node m cur) as [[| |]|]; try done. rewrite Hx.
    destruct (m !! (cur ++ [x])) as [e|] eqn:He; [|done].
    intros _. exists cur. by rewrite He.
  - destruct (node m cur) as [[| |]|]; try done.
    destruct (String.eqb y ".."); [apply IHa|].
    destruct (m !! (cur ++ [y])) as [[| |]|]; try done; apply IHa.
  - destruct (node m cur) as [[| |]|]; try done. rewrite Hx.
    destruct (m !! (cur ++ [x])) as [e|] eqn:He; [|done].
    intros _. exists cur. by rewrite He.
  - destruct (node m cur) as [[| |]|]; try done.
    destruct (String.eqb y ".."); [apply IHa|].
    destruct (m !! (cur ++ [y])) as [[| |]|]; try done; [apply IHa | apply IHa |].
    rewrite app_assoc. apply IHn.
Qed.

(** Along real directories resolution is the path itself. *)
Lemma walk_real m n cur ps :
  real_dirs_below m cur ps = true -> walk n m cur ps = Some (cur ++ ps).
Proof.
  revert cur. induction ps as [|x rest IH]; intros cur H.
  - by rewrite walk_nil, app_nil_r.
  - rewrite walk_cons. simpl in H.
    destruct (node m cur) as [[| |]|]; try done.
    apply andb_true_iff in H as [Hx H]. apply negb_true_iff in Hx. rewrite Hx.
    assert (Hn : node m (cur ++ [x]) = Some EDir).
    { destruct rest; simpl in H; by destruct (node m (cur ++ [x])) as [[| |]|]. }
    assert (Hl : m !! (cur ++ [x]) = Some EDir).
    { destruct cur; exact Hn. }
    rewrite Hl, IH by done. by rewrite <- app_assoc.
Qed.

Lemma real_dirs_below_node m cur ps :
  real_dirs_below m cur ps = true -> node m (cur ++ ps) = Some EDir.
Proof.
  revert cur. induction ps as [|x rest IH]; intros cur H; simpl in H.
  - rewrite app_nil_r. by destruct (node m cur) as [[| |]|].
  - destruct (node m cur) as [[| |]|]; try done.
    apply andb_true_iff in H as [_ H].
    rewrite (app_assoc cur [x] rest : cur ++ x :: rest = (cur ++ [x]) ++ rest).
    by apply IH.
Qed.


(** *** Subtrees *)




Lemma lookup_prune (k : list string) (m : gmap (list string) entry) (j : list string) :
  prune k m !! j = if decide (k `prefix_of` j) then None else m !! j.
Proof.
  unfold prune. destruct (decide (k `prefix_of` j)) as [Hp|Hp].
  - apply map_lookup_filter_None. right. intros e _ Hn. by apply Hn.
  - destruct (m !! j) as [e|] eqn:E.
    + by apply map_lookup_filter_Some.
    + apply map_lookup_filter_None. by left.
Qed.

Lemma prune_subseteq (k : list string) (m : gmap (list string) entry) : prune k m ⊆ m.
Proof. apply map_filter_subseteq. Qed.






(** *** Removing a tree *)

Lemma resolve_parent_parts f p d x :
  resolve_parent f p = Some (d, x) ->
  exists before,
    parts p = before ++ [x]
    /\ String.eqb x ".." = false
    /\ walk (symloop_max f) (entries f) (start f p) before = Some d
    /\ node (entries f) d = Some EDir.
Proof.
  unfold resolve_parent. intros H.
  destruct (rev (parts p)) as [|y before] eqn:Hrev; [done|].
  destruct (String.eqb y "..") eqn:Hy; [done|].
  destruct (walk (symloop_max f) (entries f) (start f p) (rev before)) as [d'|] eqn:Hw; [|done].
  destruct (node (entries f) d') as [[| |]|] eqn:Hn; try done.
  injection H as -> ->.
  exists (rev before). split; [|done].
  rewrite <- (rev_involutive (parts p)), Hrev. done.
Qed.

Lemma rmtree_inv f p f' :
  rmtree f p = Some f' ->
  exists d x,
    resolve_parent f p = Some (d, x)
    /\ entries f !! (d ++ [x]) = Some EDir
    /\ f' = with_entries f (prune (d ++ [x]) (entries f)).
Proof.
  unfold rmtree, lkey. intros H.
  destruct (resolve_parent f p) as [[d x]|]; [|done].
  destruct (entries f !! (d ++ [x])) as [[| |]|] eqn:He; try done.
  injection H as <-. by exists d, x.
Qed.

(** A tree that was removed is no longer there. *)
Lemma rmtree_not_exists f p f' : rmtree f p = Some f' -> exists_ f' p = false.
Proof.
  intros H. destruct (rmtree_inv _ _ _ H) as (d & x & Hrp & He & ->).
  destruct (resolve_parent_parts _ _ _ _ Hrp) as (before & Hparts & Hx & Hw & Hn).
  unfold exists_.
  destruct (resolve (with_entries f (prune (d ++ [x]) (entries f))) p) as [k|] eqn:Hw';
    [|done].
  exfalso. unfold resolve in Hw'.
  change (symloop_max (with_entries f (prune (d ++ [x]) (entries f))))
    with (symloop_max f) in Hw'.
  change (start (with_entries f (prune (d ++ [x]) (entries f))) p) with (start f p) in Hw'.
  change (entries (with_entries f (prune (d ++ [x]) (entries f))))
    with (prune (d ++ [x]) (entries f)) in Hw'.
  rewrite Hparts in Hw'.
  destruct (walk_snoc_inv _ _ _ _ _ _ Hw' Hx) as (d' & Hwd & [e Hsome]).
  apply (walk_mono (entries f)) in Hwd; [|apply prune_subseteq].
  rewrite Hw in Hwd. injection Hwd as <-.
  rewrite lookup_prune in Hsome. by rewrite decide_True in Hsome.
Qed.



(** *** Tree reorganisation *)







(** *** The install-tree descriptor *)

Lemma assoc_set_eq {A} k (v : A) l : Ini.assoc k (Ini.assoc_set k v l) = Some v.
Proof.
  induction l as [|[k' v'] rest IH]; simpl.
  - by rewrite String.eqb_refl.
  - destruct (String.eqb k k') eqn:E; simpl; rewrite E; [done | apply IH].
Qed.

Lemma assoc_set_ne {A} k k' (v : A) l :
  k ≠ k' -> Ini.assoc k' (Ini.assoc_set k v l) = Ini.assoc k' l.
Proof.
  intros Hne. induction l as [|[k0 v0] rest IH]; simpl.
  - destruct (String.eqb k' k) eqn:E; [|done].
    apply String.eqb_eq in E. congruence.
  - destruct (String.eqb k k0) eqn:E; simpl.
    + apply String.eqb_eq in E. subst k0.
      destruct (String.eqb k' k) eqn:E'; [|done].
      apply String.eqb_eq in E'. congruence.
    + destruct (String.eqb k' k0); [done | apply IH].
Qed.



Lemma write_file_existing f p k i c :
  resolve f p = Some k ->
  node (entries f) k = Some (EFile i) ->
  write_file f p c = Some (mkFs (entries f) (<[i := c]> (inodes f)) (cwd f) (symloop_max f)).
Proof. intros Hr Hn. unfold write_file. by rewrite Hr, Hn. Qed.

(** A descriptor that [config.set] accepts a named section of was read
    from a file. *)
Lemma config_read_sections f p c section :
  config_read f p = Some c ->
  is_Some (Ini.assoc section (Ini.sections c)) ->
  exists k i,
    resolve f p = Some k
    /\ node (entries f) k = Some (EFile i)
    /\ inodes f !! i = Some (IniDoc c).
Proof.
  unfold config_read. intros H [opts Ho].
  destruct (resolve f p) as [k|]; [|injection H as <-; done].
  destruct (node (entries f) k) as [[|i|]|] eqn:Hn; try (injection H as <-; done).
  destruct (inodes f !! i) as [[| |c0]|] eqn:Hi; try done.
  - injection H as <-. by exists k, i.
  - injection H as <-. done.
Qed.

(** What [update_timestamp_in_treeinfo] does to a descriptor that exists. *)
Lemma update_timestamp_existing tree_info_path timestamp w w' :
  exists_ (fs w) tree_info_path = true ->
  update_timestamp_in_treeinfo tree_info_path timestamp w = Some w' ->
  exists c c1 c2 k i,
    config_read (fs w) tree_info_path = Some c
    /\ Ini.set c "general" "timestamp" (pretty timestamp) = Some c1
    /\ Ini.set c1 "tree" "build_timestamp" (pretty timestamp) = Some c2
    /\ resolve (fs w) tree_info_path = Some k
    /\ node (entries (fs w)) k = Some (EFile i)
    /\ inodes (fs w) !! i = Some (IniDoc c)
    /\ w' = mkWorld (mkFs (entries (fs w)) (<[i := IniDoc c2]> (inodes (fs w))) (cwd (fs w)) (symloop_max (fs w)))
              (log w ++ [mkRecord INFO (MsgUpdateTimestamp timestamp (str tree_info_path))])
              (calls w) (ticks w).
Proof.
  intros He H. unfold update_timestamp_in_treeinfo in H. rewrite He in H. simpl in H.
  destruct (config_read (fs w) tree_info_path) as [c|] eqn:Hc; [|done].
  destruct (Ini.set c "general" "timestamp" (pretty timestamp)) as [c1|] eqn:H1; [|done].
  destruct (Ini.set c1 "tree" "build_timestamp" (pretty timestamp)) as [c2|] eqn:H2; [|done].
  assert (Hsec : is_Some (Ini.assoc "general" (Ini.sections c))).
  { unfold Ini.set in H1.
    destruct (negb _ && negb _); [done|]. simpl in H1.
    by destruct (Ini.assoc "general" (Ini.sections c)). }
  destruct (config_read_sections _ _ _ _ Hc Hsec) as (k & i & Hr & Hn & Hi).
  unfold on_fs in H. simpl in H.
  rewrite (write_file_existing _ _ _ _ _ Hr Hn) in H. injection H as <-.
  by exists c, c1, c2, k, i.
Qed.

(** *** What the steps log *)















Section Timestamp.
Variable T : Z.

















End Timestamp.



(** *** Updateinfo injection *)





(** *** Variants that are not needed *)









(** *** Paths through real directories *)


Lemma node_real f p : real_dir f p = true -> node (entries f) (dir_key f p) = Some EDir.
Proof. apply real_dirs_below_node. Qed.



(** The entry a path names in a real directory. *)
Lemma resolve_parent_child f d p x :
  real_dir f d = true ->
  String.eqb x ".." = false ->
  root p = root d -> parts p = parts d ++ [x] ->
  resolve_parent f p = Some (dir_key f d, x).
Proof.
  intros Hd Hx Hroot Hparts. unfold resolve_parent.
  rewrite Hparts, rev_app_distr. simpl. rewrite Hx, rev_involutive.
  assert (Hs : start f p = start f d) by (unfold start, is_absolute; by rewrite Hroot).
  rewrite Hs. unfold real_dir in Hd. rewrite (walk_real _ _ _ _ Hd).
  fold (dir_key f d). by rewrite (node_real f d Hd).
Qed.

Lemma lkey_child f d p x :
  real_dir f d = true ->
  String.eqb x ".." = false ->
  root p = root d -> parts p = parts d ++ [x] ->
  lkey f p = Some (dir_key f d ++ [x]).
Proof.
  intros Hd Hx Hroot Hparts. unfold lkey.
  by rewrite (resolve_parent_child f d p x).
Qed.







(** *** The text of a timestamp *)



Lemma length_append (a b : string) :
  String.length (a +:+ b) = String.length a + String.length b.
Proof. induction a as [|c a IH]; [done|]. rewrite append_cons. simpl. by rewrite IH. Qed.



(** *** Promotion *)










Lemma joinpath_plain p s :
  Str.plain_name s = true -> joinpath p [s] = mkPath (root p) (parts p ++ [s]).
Proof. intros H. unfold joinpath. simpl. by apply join1_plain. Qed.


(** *** Making directories *)






(** *** Copying a tree *)












(** *** ISO collection *)






Section Collect.

Variables I A : list string.
Hypothesis HAI : ¬ A `prefix_of` I.
Hypothesis HIA : ¬ I `prefix_of` A.








End Collect.

Section Collected.

Variables I A : list string.
Hypothesis HAI : ¬ A `prefix_of` I.
Hypothesis HIA : ¬ I `prefix_of` A.






End Collected.














(** *** The shared checksum *)







(* ===================================================================== *)
(** ** More of the script *)
(* ===================================================================== *)

(** *** The command line *)

(** X1.  [cli_main] works on no compose result.  The results found are
    listed for the log, which leaves nothing for the loop to run over: a
    call that returns has added one record to the log, run no command,
    read neither the clock nor the signing service, changed no file
    content and added no entry.  Without an intermediate result the file
    system is as it was; with one, that directory is gone. *)
Theorem cli_main_processes_no_result args w w' :
  cli_main args w = Some w' ->
  let latest_result_paths :=
    glob (fs w) (joinpath (parse (env_path args)) [PUNGI_RESULTS]) "latest-*" in
  log w' = log w ++ [mkRecord INFO (MsgLatestResults (List.map str latest_result_paths))]
  /\ calls w' = calls w
  /\ ticks w' = ticks w
  /\ inodes (fs w') = inodes (fs w)
  /\ entries (fs w') ⊆ entries (fs w)
  /\ (middle_result_directory args = None -> fs w' = fs w)
  /\ (forall d, middle_result_directory args = Some d -> exists_ (fs w') (parse d) = false).
Proof.
  unfold cli_main, list_of_generator, for_generator. cbn [pending for_each mbind option_bind].
  cbv zeta. intros H.
  destruct (middle_result_directory args) as [d|].
  - simpl in H. destruct (exists_ (fs w) (parse d)) eqn:E.
    + unfold on_fs in H. simpl in H.
      destruct (rmtree (fs w) (parse d)) as [f'|] eqn:Hrm; [|done].
      injection H as <-. simpl.
      destruct (rmtree_inv _ _ _ Hrm) as (k & x & _ & _ & ->). simpl.
      split; [done|]. split; [done|]. split; [done|]. split; [done|].
      split; [apply prune_subseteq|]. split; [done|].
      intros d' [= <-]. by apply (rmtree_not_exists _ _ _ Hrm).
    + injection H as <-. simpl.
      split; [done|]. split; [done|]. split; [done|]. split; [done|].
      split; [done|]. split; [done|]. by intros d' [= <-].
  - simpl in H. injection H as <-. simpl.
    split; [done|]. split; [done|]. split; [done|]. split; [done|].
    split; [done|]. split; [done|]. done.
Qed.

(** *** The manifests *)

(** X2.  In the composeinfo manifest, a path whose type has a canonical
    place becomes [variant/place], the architecture filled in, whatever it
    was before. *)
Theorem composeinfo_path_rewritten content content' variant path_type arch path path_suffix :
  composeinfo_content content = Some content' ->
  variant ≠ "Minimal" ->
  composeinfo_path_at content variant path_type arch = Some path ->
  PATH_DICTIONARY path_type = Some path_suffix ->
  composeinfo_path_at content' variant path_type arch
  = Some (JStr (str (joinpath (parse variant) [Str.format_arch path_suffix arch]))).
Proof.
  intros Hc Hne Hat Hd.
  unfold composeinfo_path_at in Hat.
  destruct (payload content "variants") as [variants|] eqn:Hp; [|done]. simpl in Hat.
  destruct (subscript variants variant) as [vd|] eqn:Hv; [|done]. simpl in Hat.
  destruct (subscript vd "paths") as [vp|] eqn:Hvp; [|done]. simpl in Hat.
  destruct (subscript vp path_type) as [pd|] eqn:Hpd; [|done]. simpl in Hat.
  destruct (composeinfo_content_path content content' variant path_type arch pd Hc Hne)
    as (pd' & Hr & ->).
  { rewrite Hp. simpl. rewrite Hv. simpl. rewrite Hvp. simpl. exact Hpd. }
  unfold rewrite_path_data in Hr.
  destruct (for_items_subscript _ _ _ _ _ Hr Hat) as (v' & Hb & Hs).
  rewrite Hd in Hb. injection Hb as <-. exact Hs.
Qed.

Lemma mapM_json_lookup f (l l' : list json) :
  mapM_json f l = Some l' ->
  List.length l' = List.length l
  /\ forall n x, l !! n = Some x -> exists y, f x = Some y /\ l' !! n = Some y.
Proof.
  revert l'. induction l as [|a l IH]; intros l' H; simpl in H.
  - injection H as <-. split; [done|]. intros n x Hx. by destruct n.
  - destruct (f a) as [b|] eqn:Ha; [|done].
    destruct (mapM_json f l) as [l1|] eqn:Hl; [|done]. injection H as <-.
    destruct (IH _ eq_refl) as [IHl IHn]. split; [simpl; by rewrite IHl|].
    intros [|n] x Hx; simpl in *.
    + injection Hx as <-. eauto.
    + by apply IHn.
Qed.

(** X3.  In the images manifest every image keeps its place in its list
    and all its fields but the path, which becomes [isos/arch/file] for
    the architecture the list is filed under and the file name of the old
    path. *)
Theorem images_path_rewritten content content' variant arch items n image :
  images_content content = Some content' ->
  images_at content variant arch = Some (JArr items) ->
  items !! n = Some image ->
  exists items' image' p,
    images_at content' variant arch = Some (JArr items')
    /\ List.length items' = List.length items
    /\ items' !! n = Some image'
    /\ subscript image "path" = Some (JStr p)
    /\ subscript image' "path"
       = Some (JStr (str (joinpath (parse "isos") [arch; name (parse p)])))
    /\ forall k, k ≠ "path" -> subscript image' k = subscript image k.
Proof.
  unfold images_content, images_at. intros Hc Hat Hn.
  destruct (payload content "images") as [images|] eqn:Hp; [|done].
  destruct (rewrite_images images) as [images'|] eqn:Hr; [|done].
  simpl in Hat.
  destruct (subscript images variant) as [vd|] eqn:Hv; [|done]. simpl in Hat.
  unfold rewrite_images in Hr.
  destruct (for_keys_subscript _ _ _ _ _ Hr Hv) as (vd' & Hbody & Hv').
  destruct (for_items_subscript _ _ _ _ _ Hbody Hat) as (l' & Hl & Ha').
  unfold rewrite_images_list in Hl.
  destruct (mapM_json (rewrite_image arch) items) as [items'|] eqn:Hm; [|done].
  injection Hl as <-.
  destruct (mapM_json_lookup _ _ _ Hm) as [Hlen Hnth].
  destruct (Hnth n image Hn) as (image' & Hi & Hn').
  unfold rewrite_image in Hi.
  destruct image as [| | | | |fields]; try done.
  destruct (dict_get "path" fields) as [[| | |p| |]|] eqn:Hpath; try done.
  injection Hi as <-.
  exists items', (JObj (dict_set "path"
                    (JStr (str (joinpath (parse "isos") [arch; name (parse p)]))) fields)), p.
  rewrite (payload_set_payload _ _ _ _ Hc). simpl. rewrite Hv'. simpl.
  split; [done|]. split; [done|]. split; [done|]. split; [done|].
  split; [apply dict_get_set_eq|]. intros k Hk. by apply dict_get_set_ne.
Qed.

(** *** Promotion without a link *)

(** X4.  The promotion reads a symbolic link: when [latest_path.parent]
    is anything else, a directory, a file or nothing, it raises. *)
Theorem promotion_needs_a_link r dir_parts lname cname w :
  let latest_path := mkPath r (dir_parts ++ [lname; cname]) in
  let results := mkPath r dir_parts in
  real_dir (fs w) results = true ->
  String.eqb lname ".." = false ->
  (forall target,
     entries (fs w) !! (dir_key (fs w) results ++ [lname]) ≠ Some (ELink target)) ->
  rename_latest_dir latest_path w = None.
Proof.
  intros latest_path results Hreal Hl Hnl.
  assert (Hp1 : parent latest_path = mkPath r (dir_parts ++ [lname])).
  { unfold latest_path.
    change (dir_parts ++ [lname; cname]) with (dir_parts ++ [lname] ++ [cname]).
    by rewrite app_assoc, parent_snoc. }
  unfold rename_latest_dir, readlink. rewrite Hp1.
  rewrite (lkey_child (fs w) results _ lname) by done.
  destruct (entries (fs w) !! (dir_key (fs w) results ++ [lname])) as [[| |t]|] eqn:E;
    try done.
  by destruct (Hnl t).
Qed.

(** *** The kickstart mirror of a tree without metadata *)


(** *** The removal of the variants not needed *)

(** X6.  The loop over the variants not needed only deletes: every entry
    left was there before, no file content changes, no command is run and
    nothing outside is read; when none of the variants is there, nothing
    changes at all, the log included. *)
Theorem not_needed_removal_only_deletes args latest_path w w' :
  remove_not_needed_repos args latest_path w = Some w' ->
  entries (fs w') ⊆ entries (fs w)
  /\ inodes (fs w') = inodes (fs w)
  /\ calls w' = calls w
  /\ ticks w' = ticks w
  /\ ((forall repo, In repo (not_needed_repos args) ->
                    exists_ (fs w) (joinpath latest_path [repo]) = false) ->
      w' = w).
Proof.
  unfold remove_not_needed_repos. generalize (not_needed_repos args). intros l.
  revert w. induction l as [|x rest IH]; intros w H.
  - injection H as <-. done.
  - cbn [for_each] in H. cbv zeta in H.
    destruct (exists_ (fs w) (joinpath latest_path [x])) eqn:E.
    + unfold on_fs in H. cbn [fs logging_info] in H.
      destruct (rmtree (fs w) (joinpath latest_path [x])) as [f'|] eqn:Hrm; [|done].
      destruct (rmtree_inv _ _ _ Hrm) as (k & y & _ & _ & ->).
      destruct (IH _ H) as (H1 & H2 & H3 & H4 & _).
      cbn [fs with_fs logging_info entries inodes with_entries calls ticks] in *.
      split; [etrans; [exact H1 | apply prune_subseteq]|].
      split; [done|]. split; [done|]. split; [done|].
      intros Hall. rewrite (Hall x) in E; [done | by left].
    + destruct (IH _ H) as (H1 & H2 & H3 & H4 & H5).
      split; [done|]. split; [done|]. split; [done|]. split; [done|].
      intros Hall. apply H5. intros repo Hin. apply Hall. by right.
Qed.

(** *** A manifest is rewritten in place *)


(** *** The descriptor of the kickstart mirror *)


(** *** Signatures *)

Lemma split_on_sep_app c a b :
  Str.split_on c (a +:+ String c b) = Str.split_on c a ++ Str.split_on c b.
Proof.
  induction a as [|d a IH].
  - rewrite append_nil_l. simpl. by rewrite Ascii.eqb_refl.
  - rewrite append_cons. simpl. destruct (Ascii.eqb d c); [by rewrite IH|].
    rewrite IH. destruct (Str.split_on c a) as [|x xs] eqn:E; [|done].
    by destruct (split_on_nonempty c a).
Qed.

Lemma join_split_on c s : Str.join (String c "") (Str.split_on c s) = s.
Proof.
  induction s as [|d s IH]; [done|]. simpl.
  destruct (Ascii.eqb d c) eqn:E.
  - apply Ascii.eqb_eq in E. subst d.
    rewrite join_cons by apply split_on_nonempty. by rewrite IH.
  - destruct (Str.split_on c s) as [|x xs] eqn:Hs; [by destruct (split_on_nonempty c s)|].
    destruct xs as [|y ys].
    + simpl in *. by rewrite IH.
    + rewrite join_cons by done. rewrite join_cons in IH by done.
      by rewrite append_cons, IH.
Qed.

Lemma substring_append (a b : string) : String.substring 0 (String.length a) (a +:+ b) = a.
Proof.
  induction a as [|d a IH].
  - simpl. by destruct b.
  - rewrite append_cons. simpl. by rewrite IH.
Qed.

Lemma startswith_append (p s : string) : Str.startswith p (p +:+ s) = true.
Proof. apply String.prefix_correct. apply substring_append. Qed.

(** the suffix of a name that ends in [.asc] *)
Lemma suffix_asc r l x :
  x ≠ "" -> suffix (mkPath r (l ++ [x +:+ ".asc"])) = ".asc".
Proof.
  intros Hx. unfold suffix. rewrite name_snoc. cbv zeta.
  rewrite (split_on_sep_app "." x "asc").
  change (Str.split_on "." "asc") with ["asc"].
  rewrite rev_unit, removelast_last, join_split_on.
  destruct (rev (Str.split_on "." x)) as [|y ys] eqn:E.
  - apply (f_equal (@rev _)) in E. rewrite rev_involutive in E.
    by destruct (split_on_nonempty "." x).
  - apply String.eqb_neq in Hx. by rewrite Hx.
Qed.

Lemma drop_suffix_asc r l x :
  x ≠ "" -> drop_suffix (mkPath r (l ++ [x +:+ ".asc"])) = Some (mkPath r (l ++ [x])).
Proof.
  intros Hx. unfold drop_suffix. rewrite (suffix_asc r l x Hx).
  cbn [parts root]. rewrite rev_unit, rev_involutive. cbv zeta.
  rewrite length_append.
  replace (String.length x + String.length ".asc" - String.length ".asc")
    with (String.length x) by lia.
  by rewrite substring_append.
Qed.

(** X9.  A detached signature is written beside the file signed, under
    its name with [.asc] appended, and the verification that follows is
    given that signature and the very file that was sent to be signed. *)
Theorem detached_signature_round_trip signer r l x keyid w signed w1 :
  let file_path := mkPath r (l ++ [x]) in
  x ≠ "" ->
  Signer_sign signer file_path keyid detach_sign w = Some (signed, w1) ->
  signed = mkPath r (l ++ [x +:+ ".asc"])
  /\ (exists c text,
        read_file (fs w) file_path = Some c
        /\ post_sign (ticks w) (endpoint signer) (token signer) keyid "detach-sign" c
           = Some text
        /\ write_file (fs w) signed (Raw text) = Some (fs w1))
  /\ ticks w1 = S (ticks w) /\ calls w1 = calls w /\ log w1 = log w
  /\ Signer_verify signed w1
     = check_call ("gpg --verify " +:+ str signed +:+ " " +:+ str file_path) w1.
Proof.
  intros file_path Hx. unfold Signer_sign.
  destruct (read_file (fs w) file_path) as [c|] eqn:Hc; [|done].
  destruct (post_sign _ _ _ _ _ _) as [text|] eqn:Ht; [|done].
  cbv zeta. unfold add_suffix, file_path. cbn [parts root].
  rewrite rev_unit, rev_involutive.
  change (fs (tick w)) with (fs w).
  destruct (write_file _ _ _) as [f1|] eqn:Hw; [|done].
  intros [= <- <-].
  split; [done|]. split; [by exists c, text|].
  split; [done|]. split; [done|]. split; [done|].
  unfold Signer_verify. rewrite (suffix_asc r l x Hx), (drop_suffix_asc r l x Hx).
  done.
Qed.

Lemma sign_and_verify_calls username password endpoint_ keyid t file_path w w' :
  sign_and_verify username password endpoint_ keyid t file_path w = Some w' ->
  exists cmd,
    calls w' = calls w ++ [cmd]
    /\ Str.startswith "gpg --verify " cmd = true
    /\ ticks w' = ticks w + 3
    /\ log w' = log w.
Proof.
  unfold sign_and_verify, Signer_init, Signer_sign.
  destruct (post_token _ _ _ _) as [tok|]; [|done].
  change (fs (tick w)) with (fs w).
  destruct (read_file (fs w) file_path) as [c|]; [|done].
  destruct (post_sign _ _ _ _ _ _) as [text|]; [|done]. cbv zeta.
  match goal with
  | |- match match ?o with Some _ => _ | None => _ end with Some _ => _ | None => _ end = _ -> _ =>
      destruct o as [q|]; [|done]
  end.
  destruct (write_file _ _ _) as [f1|]; [|done].
  unfold Signer_verify, check_call.
  destruct (String.eqb (suffix q) ".asc").
  - destruct (drop_suffix q) as [s|]; [|done].
    destruct (shell _ _ _) as [f2|]; [|done]. intros [= <-]. cbn.
    eexists. split; [reflexivity|]. split; [apply startswith_append|].
    split; [lia | reflexivity].
  - destruct (shell _ _ _) as [f2|]; [|done]. intros [= <-]. cbn.
    eexists. split; [reflexivity|]. split; [apply startswith_append|].
    split; [lia | reflexivity].
Qed.

(** X10.  Signing the metadata of a variant takes a token, a signature
    and a verification for each [repomd.xml] it finds, at most four of
    them: every command it runs is a [gpg --verify], three readings of
    the outside are taken for each, and one record is logged whatever it
    finds. *)
Theorem repomd_signing_calls latest_path repo_name arch pgp_keyid username password
    endpoint_ w w' :
  sign_repomd_xml latest_path repo_name arch pgp_keyid username password endpoint_ w
  = Some w' ->
  exists cmds,
    calls w' = calls w ++ cmds
    /\ List.length cmds <= 4
    /\ Forall (fun cmd => Str.startswith "gpg --verify " cmd = true) cmds
    /\ ticks w' = ticks w + 3 * List.length cmds
    /\ log w' = log w ++ [mkRecord INFO (MsgSignRepomd repo_name)].
Proof.
  unfold sign_repomd_xml. cbv zeta.
  destruct (PATH_DICTIONARY "source") as [sources_suffix|]; [|done].
  destruct (PATH_DICTIONARY "debug") as [debug_suffix|]; [|done].
  set (w0 := logging_info (MsgSignRepomd repo_name) w).
  change (calls w) with (calls w0). change (ticks w) with (ticks w0).
  change (log w ++ [mkRecord INFO (MsgSignRepomd repo_name)]) with (log w0).
  generalize w0. clear w0.
  match goal with
  | |- forall w0, for_each ?paths _ _ = _ -> _ =>
      change 4 with (List.length paths); generalize paths
  end.
  intros paths. induction paths as [|path rest IH]; intros w0.
  - intros [= <-]. exists []. rewrite app_nil_r. cbn. repeat split; [lia | done | lia].
  - cbn [for_each].
    destruct (negb (exists_ (fs w0) path)).
    + intros H. destruct (IH _ H) as (cmds & H1 & H2 & H3 & H4 & H5).
      exists cmds. cbn [List.length]. repeat split; try done. lia.
    + destruct (sign_and_verify _ _ _ _ _ _ w0) as [w1|] eqn:Hs; [|done].
      intros H. destruct (IH _ H) as (cmds & H1 & H2 & H3 & H4 & H5).
      destruct (sign_and_verify_calls _ _ _ _ _ _ _ _ Hs) as (cmd & G1 & G2 & G3 & G4).
      exists (cmd :: cmds). cbn [List.length].
      split; [by rewrite H1, G1, <- app_assoc|].
      split; [lia|]. split; [by constructor|].
      split; [lia | by rewrite H5, G4].
Qed.

(** X11.  The checksums of the images are clear-signed in place: the
    file [isos/<arch>/CHECKSUM] keeps its entry and its inode and holds
    the text the signing service answered with to its former content, and
    the verification is given that file alone.  Without the file only a
    warning is logged. *)
Theorem checksum_signed_in_place latest_path arch pgp_keyid username password
    endpoint_ w w' :
  let checksum_path := joinpath latest_path ["isos"; arch; "CHECKSUM"] in
  sign_isos_checksum latest_path arch pgp_keyid username password endpoint_ w = Some w' ->
  (exists_ (fs w) checksum_path = false ->
   fs w' = fs w /\ calls w' = calls w /\ ticks w' = ticks w
   /\ log w' = log w ++ [mkRecord INFO MsgSignChecksum; mkRecord WARNING MsgChecksumAbsent])
  /\ (exists_ (fs w) checksum_path = true ->
      exists tok c text k i,
        post_token (ticks w) endpoint_ username password = Some tok
        /\ resolve (fs w) checksum_path = Some k
        /\ node (entries (fs w)) k = Some (EFile i)
        /\ inodes (fs w) !! i = Some c
        /\ post_sign (S (ticks w)) endpoint_ tok pgp_keyid "clear-sign" c = Some text
        /\ shell (S (S (ticks w))) ("gpg --verify " +:+ str checksum_path)
             (mkFs (entries (fs w)) (<[i := Raw text]> (inodes (fs w)))
                (cwd (fs w)) (symloop_max (fs w)))
           = Some (fs w')
        /\ calls w' = calls w ++ ["gpg --verify " +:+ str checksum_path]
        /\ ticks w' = S (S (S (ticks w)))
        /\ log w' = log w ++ [mkRecord INFO MsgSignChecksum]).
Proof.
  intros checksum_path. unfold sign_isos_checksum. cbv zeta. fold checksum_path.
  change (fs (logging_info MsgSignChecksum w)) with (fs w).
  assert (Hsfx : suffix checksum_path = "").
  { unfold checksum_path.
    change (joinpath latest_path ["isos"; arch; "CHECKSUM"])
      with (joinpath (joinpath latest_path ["isos"; arch]) ["CHECKSUM"]).
    rewrite joinpath_plain by done. unfold suffix. by rewrite name_snoc. }
  destruct (exists_ (fs w) checksum_path) eqn:E; cbn [negb].
  - unfold sign_and_verify, Signer_init, Signer_sign.
    cbn [fs ticks logging_info].
    destruct (post_token _ _ _ _) as [tok|] eqn:Htok; [|done].
    cbn [fs tick logging_info endpoint token ticks sign_type_name].
    unfold read_file.
    destruct (resolve (fs w) checksum_path) as [k|] eqn:Hr; [|done].
    destruct (node (entries (fs w)) k) as [[|i|]|] eqn:Hn; try done.
    destruct (inodes (fs w) !! i) as [c|] eqn:Hi; [|done].
    destruct (post_sign _ _ _ _ _ _) as [text|] eqn:Ht; [|done].
    rewrite (write_file_existing _ _ _ _ _ Hr Hn).
    unfold Signer_verify, check_call. rewrite Hsfx.
    cbn [String.eqb fs with_fs ticks calls log].
    change (String.eqb "" ".asc") with false. cbv iota.
    destruct (shell _ _ _) as [f2|] eqn:Hsh; [|done].
    intros [= <-]. split; [done|]. intros _.
    exists tok, c, text, k, i. cbn [fs calls ticks log]. by repeat split.
  - intros [= <-]. split; [|done]. intros _. cbn.
    repeat split. by rewrite <- app_assoc.
Qed.

(** *** A collection that cannot fail *)







(** *** What the move of the sources does *)



(** *** A variant of the middle result *)

(** X15.  A variant listed among those of the middle result is removed
    from the result where it is found, and nothing else is done for it:
    no record is logged, no file content changes, no command is run. *)
Theorem middle_variant_removed args latest_path build_timestamp repo w w' :
  In repo (middle_repos args) ->
  process_repo args latest_path build_timestamp repo w = Some w' ->
  exists_ (fs w') (joinpath latest_path [repo]) = false
  /\ entries (fs w') ⊆ entries (fs w)
  /\ inodes (fs w') = inodes (fs w)
  /\ log w' = log w /\ calls w' = calls w /\ ticks w' = ticks w.
Proof.
  intros Hin. unfold process_repo.
  assert (Hs : string_in repo (middle_repos args) = true).
  { unfold string_in. apply existsb_exists. exists repo. split; [done|].
    apply String.eqb_refl. }
  destruct (exists_ (fs w) (joinpath latest_path [repo])) eqn:E; cbn [negb].
  - rewrite Hs. unfold on_fs.
    destruct (rmtree (fs w) (joinpath latest_path [repo])) as [f'|] eqn:Hrm; [|done].
    intros [= <-]. cbn [fs with_fs log calls ticks].
    split; [by eapply rmtree_not_exists|].
    destruct (rmtree_inv _ _ _ Hrm) as (k & y & _ & _ & ->).
    cbn [entries inodes with_entries]. split; [apply prune_subseteq | done].
  - intros [= <-]. by rewrite E.
Qed.

(** *** What the move of the debug tree does *)





(** *** The manifests go to the folder of the architecture *)







(** *** A second timestamp *)

Lemma assoc_set_set {X} k (v v' : X) l :
  Ini.assoc_set k v (Ini.assoc_set k v' l) = Ini.assoc_set k v l.
Proof.
  induction l as [|[k0 v0] rest IH]; simpl.
  - by rewrite String.eqb_refl.
  - destruct (String.eqb k k0) eqn:E; simpl; rewrite E; [done | by rewrite IH].
Qed.

Lemma assoc_set_comm {X} k k' (v v' v0 : X) l :
  k ≠ k' -> Ini.assoc k' l = Some v0 ->
  Ini.assoc_set k v (Ini.assoc_set k' v' l) = Ini.assoc_set k' v' (Ini.assoc_set k v l).
Proof.
  intros Hne. induction l as [|[k0 w0] rest IH]; [done|].
  cbn [Ini.assoc Ini.assoc_set].
  destruct (String.eqb k' k0) eqn:E'.
  - apply String.eqb_eq in E'. subst k0. intros _.
    assert (E : String.eqb k k' = false) by by apply String.eqb_neq.
    cbn [Ini.assoc_set]. rewrite E. cbn [Ini.assoc_set]. by rewrite String.eqb_refl.
  - intros H. destruct (String.eqb k k0) eqn:E; cbn [Ini.assoc_set]; rewrite E, ?E'.
    + done.
    + by rewrite IH.
Qed.

(** [config.set] twice on one option of a named section: the second
    value stands as if the first had never been set. *)
Lemma set_set c section key v v' c1 c2 :
  (String.eqb section "" || String.eqb section "DEFAULT") = false ->
  Ini.set c section key v' = Some c1 ->
  Ini.set c1 section key v = Some c2 ->
  Ini.set c section key v = Some c2.
Proof.
  intros Hs. unfold Ini.set. rewrite Hs.
  destruct (negb (String.eqb v' "") && negb (Ini.valid_interpolation_syntax v')); [done|].
  destruct (Ini.assoc section (Ini.sections c)) as [opts|] eqn:Ho; [|done].
  intros [= <-].
  destruct (negb (String.eqb v "") && negb (Ini.valid_interpolation_syntax v)); [done|].
  cbn [Ini.sections Ini.defaults]. rewrite assoc_set_eq. intros [= <-].
  by rewrite !assoc_set_set.
Qed.

(** [config.set] on options of two named sections, in either order. *)
Lemma set_comm c s1 k1 v1 s2 k2 v2 c1 c2 :
  (String.eqb s1 "" || String.eqb s1 "DEFAULT") = false ->
  (String.eqb s2 "" || String.eqb s2 "DEFAULT") = false ->
  s1 ≠ s2 ->
  Ini.set c s1 k1 v1 = Some c1 ->
  Ini.set c1 s2 k2 v2 = Some c2 ->
  exists c1', Ini.set c s2 k2 v2 = Some c1' /\ Ini.set c1' s1 k1 v1 = Some c2.
Proof.
  intros H1 H2 Hne. unfold Ini.set. rewrite H1, H2.
  destruct (negb (String.eqb v1 "") && negb (Ini.valid_interpolation_syntax v1)); [done|].
  destruct (Ini.assoc s1 (Ini.sections c)) as [o1|] eqn:Ho1; [|done].
  intros [= <-].
  destruct (negb (String.eqb v2 "") && negb (Ini.valid_interpolation_syntax v2)); [done|].
  cbn [Ini.sections Ini.defaults]. rewrite assoc_set_ne by done.
  destruct (Ini.assoc s2 (Ini.sections c)) as [o2|] eqn:Ho2; [|done].
  intros [= <-]. eexists. split; [reflexivity|].
  cbn [Ini.sections Ini.defaults]. rewrite assoc_set_ne by done. rewrite Ho1.
  do 2 f_equal. by apply (assoc_set_comm s1 s2 _ _ o2).
Qed.

(** X19.  A descriptor stamped twice reads as if it had been stamped
    with the second timestamp only: the file system after the two updates
    is the one the second update alone leaves. *)
Theorem second_timestamp_wins tree_info_path t1 t2 w w1 w2 :
  exists_ (fs w) tree_info_path = true ->
  update_timestamp_in_treeinfo tree_info_path t1 w = Some w1 ->
  update_timestamp_in_treeinfo tree_info_path t2 w1 = Some w2 ->
  exists w2',
    update_timestamp_in_treeinfo tree_info_path t2 w = Some w2'
    /\ fs w2' = fs w2.
Proof.
  intros Hex H1 H2.
  destruct (update_timestamp_existing _ _ _ _ Hex H1)
    as (c & ca & cb & k & i & Hc & Hca & Hcb & Hr & Hn & Hi & ->).
  assert (Hex1 : exists_ (fs (mkWorld (mkFs (entries (fs w)) (<[i := IniDoc cb]> (inodes (fs w)))
                                       (cwd (fs w)) (symloop_max (fs w)))
                                (log w ++ [mkRecord INFO
                                             (MsgUpdateTimestamp t1 (str tree_info_path))])
                                (calls w) (ticks w))) tree_info_path = true) by exact Hex.
  destruct (update_timestamp_existing _ _ _ _ Hex1 H2)
    as (c' & cc & cd & k' & i' & Hc' & Hcc & Hcd & Hr' & Hn' & Hi' & ->).
  cbn [fs entries inodes cwd symloop_max log calls ticks] in *.
  assert (Ek : k' = k).
  { assert (E : Some k' = Some k) by (rewrite <- Hr', <- Hr; reflexivity).
    by injection E. }
  subst k'. rewrite Hn in Hn'. injection Hn' as <-.
  rewrite lookup_insert_eq in Hi'. injection Hi' as <-.
  destruct (set_comm ca "tree" "build_timestamp" (pretty t1) "general" "timestamp"
              (pretty t2) cb cc eq_refl eq_refl ltac:(discriminate) Hcb Hcc)
    as (cx & Hx1 & Hx2).
  pose proof (set_set c "general" "timestamp" (pretty t2) (pretty t1) ca cx
                eq_refl Hca Hx1) as Hg1.
  pose proof (set_set cx "tree" "build_timestamp" (pretty t2) (pretty t1) cc cd
                eq_refl Hx2 Hcd) as Hg2.
  eexists. split.
  - unfold update_timestamp_in_treeinfo. rewrite Hex. cbn [negb]. rewrite Hc, Hg1, Hg2.
    unfold on_fs. cbn [fs logging_info].
    rewrite (write_file_existing _ _ _ _ _ Hr Hn). reflexivity.
  - cbn [fs with_fs]. by rewrite insert_insert_eq.
Qed.

End Pipeline.

(** ** The signing service and a run without its options *)

Lemma for_each_ext {X} (l : list X) (body body' : X -> world -> option world) w :
  (forall x w1, body x w1 = body' x w1) -> for_each l body w = for_each l body' w.
Proof.
  intros Hb. revert w. induction l as [|x rest IH]; intros w; [done|].
  cbn [for_each]. rewrite Hb. by destruct (body' x w).
Qed.

(** X16.  When one of the three options of the signing service is not
    given, processing a result does not depend on the service: with any
    two services, whatever they answer, the outcome is the same. *)
Theorem unsigned_run_ignores_the_service clock shell interpolate
    post_token post_sign post_token' post_sign' args latest_result_path w :
  sign_service_username args = None \/ sign_service_password args = None
  \/ sign_service_endpoint args = None ->
  process_latest_result clock shell post_token post_sign interpolate
    args latest_result_path w
  = process_latest_result clock shell post_token' post_sign' interpolate
      args latest_result_path w.
Proof.
  intros Hopt.
  assert (Hs : sign_service args = None).
  { unfold sign_service.
    destruct Hopt as [-> | [-> | ->]]; [done | |].
    - by destruct (sign_service_username args).
    - by destruct (sign_service_username args), (sign_service_password args). }
  unfold process_latest_result, process_latest_result_tree. rewrite Hs.
  cbv zeta. unfold time.
  rewrite (for_each_ext (repos args)
             (process_repo shell post_token post_sign interpolate args _ _)
             (process_repo shell post_token' post_sign' interpolate args
                (joinpath latest_result_path ["compose"]) (clock (ticks w)))).
  - done.
  - intros repo w1. unfold process_repo. by rewrite Hs.
Qed.

(* ===================================================================== *)
(** ** The samples *)
(* ===================================================================== *)

Lemma some_of_check {X} (o : option X) (d : X) :
  match o with Some _ => true | None => false end = true -> o = Some (default d o).
Proof. by destruct o. Qed.









(** *** Where the spec and the code part *)





(** *** The theorems at the samples *)


(** C9 on the sample [rpms.json]: the binary package of [bash], whose
    category has no canonical path. *)
Lemma unmapped_entries_witness :
  let content' := default JNull (rpms_content sample_rpms) in
  artifact_at content' "BaseOS" "x86_64" "bash-0:5.src" "bash-0:5.x86_64"
  = Some (sample_artifact "binary" "BaseOS/x86_64/os/Packages/b/bash.rpm").
Proof.
  intros content'.
  destruct unmapped_entries_pass_through as (_ & H & _).
  apply (H sample_rpms content' "BaseOS" "x86_64" "bash-0:5.src" "bash-0:5.x86_64"
           (sample_artifact "binary" "BaseOS/x86_64/os/Packages/b/bash.rpm")
           (JStr "binary")).
  - apply some_of_check. vm_compute. reflexivity.
  - vm_compute. reflexivity.
  - vm_compute. reflexivity.
  - vm_compute. reflexivity.
Defined.









(** X1 on the sample: the result [latest-AlmaLinux-8] is listed in the
    log and the run ends there, the file system untouched. *)
Lemma cli_main_witness :
  let w' := default sample_world
              (cli_main sample_clock sample_shell sample_token sample_sign
                 sample_interpolate sample_args sample_world) in
  log w' = [mkRecord INFO (MsgLatestResults ["/env/pungi-results/latest-AlmaLinux-8"])]
  /\ fs w' = fs sample_world.
Proof.
  intros w'.
  destruct (cli_main_processes_no_result sample_clock sample_shell sample_token sample_sign
              sample_interpolate sample_args sample_world w')
    as (Hl & _ & _ & _ & _ & Hf & _).
  - apply some_of_check. vm_compute. reflexivity.
  - split.
    + etrans; [exact Hl|]. vm_compute. reflexivity.
    + by apply Hf.
Defined.

(** X2 on the sample [composeinfo.json]: the source tree of [BaseOS]. *)
Lemma composeinfo_path_witness :
  let content' := default JNull (composeinfo_content sample_composeinfo) in
  composeinfo_path_at content' "BaseOS" "source_tree" "x86_64" = Some (JStr "BaseOS/Source").
Proof.
  intros content'.
  etrans.
  - apply (composeinfo_path_rewritten sample_composeinfo content' "BaseOS" "source_tree"
             "x86_64" (JStr "BaseOS/source/tree") "Source").
    + apply some_of_check. vm_compute. reflexivity.
    + discriminate.
    + vm_compute. reflexivity.
    + vm_compute. reflexivity.
  - vm_compute. reflexivity.
Defined.

(** X3 on the sample [images.json]: the image of [BaseOS]. *)
Lemma images_path_witness :
  let content' := default JNull (images_content sample_images) in
  exists items' image',
    images_at content' "BaseOS" "x86_64" = Some (JArr items')
    /\ items' !! 0 = Some image'
    /\ subscript image' "path" = Some (JStr "isos/x86_64/AlmaLinux-8-x86_64-dvd.iso").
Proof.
  intros content'.
  destruct (images_path_rewritten sample_images content' "BaseOS" "x86_64"
              [JObj [("path", JStr "BaseOS/x86_64/iso/AlmaLinux-8-x86_64-dvd.iso")]] 0
              (JObj [("path", JStr "BaseOS/x86_64/iso/AlmaLinux-8-x86_64-dvd.iso")]))
    as (items' & image' & p & H1 & _ & H3 & H4 & H5 & _).
  - apply some_of_check. vm_compute. reflexivity.
  - vm_compute. reflexivity.
  - reflexivity.
  - exists items', image'. split; [exact H1|]. split; [exact H3|].
    etrans; [exact H5|]. vm_compute in H4. injection H4 as <-. vm_compute. reflexivity.
Defined.

(** X4 on the sample: the result directory itself, which is no link,
    given where the link is expected. *)
Lemma promotion_needs_a_link_witness :
  rename_latest_dir sample_clock
    (mkPath "/" (["env"; "pungi-results"] ++ ["last_compose_dir"; "compose"])) sample_world
  = None.
Proof.
  apply (promotion_needs_a_link sample_clock "/" ["env"; "pungi-results"]
           "last_compose_dir" "compose" sample_world).
  - vm_compute. reflexivity.
  - reflexivity.
  - intros target.
    assert (E : entries (fs sample_world)
                !! (dir_key (fs sample_world) (mkPath "/" ["env"; "pungi-results"])
                    ++ ["last_compose_dir"]) = Some EDir) by (vm_compute; reflexivity).
    rewrite E. discriminate.
Defined.


(** X6 on the sample: [Minimal] and [Extras] are removed, nothing else. *)
Lemma not_needed_removal_witness :
  let compose := parse "/env/pungi-results/last_compose_dir/compose" in
  let w' := default sample_world (remove_not_needed_repos sample_args compose sample_world) in
  entries (fs w') ⊆ entries (fs sample_world)
  /\ inodes (fs w') = inodes (fs sample_world)
  /\ calls w' = [] /\ ticks w' = 0.
Proof.
  intros compose w'.
  destruct (not_needed_removal_only_deletes sample_args compose sample_world w')
    as (H1 & H2 & H3 & H4 & _).
  - apply some_of_check. vm_compute. reflexivity.
  - split; [exact H1|]. split; [exact H2|]. split; [exact H3 | exact H4].
Defined.



(** X9 on the sample [repomd.xml] of [BaseOS]. *)
Lemma detached_signature_witness :
  let l := sample_root ++ ["BaseOS"; "x86_64"; "os"; "repodata"] in
  let signer := mkSigner "https://sign" "token" in
  let out := default (mkPath "/" l, sample_world)
               (Signer_sign sample_sign signer (mkPath "/" (l ++ ["repomd.xml"])) None
                  detach_sign sample_world) in
  out.1 = mkPath "/" (l ++ ["repomd.xml.asc"])
  /\ Signer_verify sample_shell out.1 out.2
     = check_call sample_shell
         ("gpg --verify /env/pungi-results/last_compose_dir/compose/BaseOS/x86_64/os/repodata/repomd.xml.asc /env/pungi-results/last_compose_dir/compose/BaseOS/x86_64/os/repodata/repomd.xml")
         out.2.
Proof.
  intros l signer out.
  destruct (detached_signature_round_trip sample_shell sample_sign signer "/" l "repomd.xml"
              None sample_world out.1 out.2) as (H1 & _ & _ & _ & _ & H2).
  - discriminate.
  - rewrite <- surjective_pairing. apply some_of_check. vm_compute. reflexivity.
  - split; [exact H1|]. rewrite H2, H1. reflexivity.
Defined.

(** X10 on the sample: one [repomd.xml] of [BaseOS] is signed. *)
Lemma repomd_signing_witness :
  let compose := parse "/env/pungi-results/last_compose_dir/compose" in
  let w' := default sample_world
              (sign_repomd_xml sample_shell sample_token sample_sign compose "BaseOS"
                 "x86_64" None "user" "password" "https://sign" sample_world) in
  exists cmds,
    calls w' = cmds /\ List.length cmds <= 4 /\ ticks w' = 3 * List.length cmds
    /\ log w' = [mkRecord INFO (MsgSignRepomd "BaseOS")].
Proof.
  intros compose w'.
  destruct (repomd_signing_calls sample_shell sample_token sample_sign compose "BaseOS"
              "x86_64" None "user" "password" "https://sign" sample_world w')
    as (cmds & H1 & H2 & _ & H4 & H5).
  - apply some_of_check. vm_compute. reflexivity.
  - exists cmds. split; [exact H1|]. split; [exact H2|]. split; [exact H4 | exact H5].
Defined.

(** X11 after the collection of variant [A]: the shared checksum is
    signed in place. *)
Lemma checksum_signed_witness :
  let compose := parse "/c" in
  let wa := default checksum_world
              (move_iso_and_its_artifacts_to_isos_arch_folder compose "A" "x86_64"
                 extensions_of_files None checksum_world) in
  let w' := default wa
              (sign_isos_checksum sample_shell sample_token sample_sign compose "x86_64"
                 None "user" "password" "https://sign" wa) in
  calls w' = calls wa ++ ["gpg --verify /c/isos/x86_64/CHECKSUM"]
  /\ ticks w' = S (S (S (ticks wa))).
Proof.
  intros compose wa w'.
  destruct (checksum_signed_in_place sample_shell sample_token sample_sign compose "x86_64"
              None "user" "password" "https://sign" wa w') as (_ & H).
  - apply some_of_check. vm_compute. reflexivity.
  - destruct H as (tok & c & text & k & i & _ & _ & _ & _ & _ & _ & Hc & Ht & _).
    + vm_compute. reflexivity.
    + split; [exact Hc | exact Ht].
Defined.




(** X15 on the sample, with [Extras] taken from a middle result. *)
Lemma middle_variant_witness :
  let compose := parse "/env/pungi-results/last_compose_dir/compose" in
  let w' := default sample_world
              (process_repo sample_shell sample_token sample_sign sample_interpolate
                 middle_args compose 1700000000 "Extras" sample_world) in
  exists_ (fs w') (joinpath compose ["Extras"]) = false
  /\ log w' = [] /\ calls w' = [].
Proof.
  intros compose w'.
  destruct (middle_variant_removed sample_shell sample_token sample_sign sample_interpolate
              middle_args compose 1700000000 "Extras" sample_world w')
    as (H1 & _ & _ & H2 & H3 & _).
  - simpl. auto.
  - apply some_of_check. vm_compute. reflexivity.
  - split; [exact H1|]. split; [exact H2 | exact H3].
Defined.

(** X16 on the sample, without the options of the service: a service
    that answers and one that refuses give the same run. *)
Lemma unsigned_run_witness :
  process_latest_result sample_clock sample_shell sample_token sample_sign
    sample_interpolate sample_args sample_latest sample_world
  = process_latest_result sample_clock sample_shell (fun _ _ _ _ => None)
      (fun _ _ _ _ _ _ => None) sample_interpolate sample_args sample_latest sample_world.
Proof.
  apply unsigned_run_ignores_the_service. left. reflexivity.
Defined.



(** X19 on the sample descriptor of [BaseOS], stamped twice. *)
Lemma second_timestamp_witness :
  let path := parse "/env/pungi-results/last_compose_dir/compose/BaseOS/x86_64/os/.treeinfo" in
  let w1 := default sample_world (update_timestamp_in_treeinfo path 1700000000 sample_world) in
  let w2 := default sample_world (update_timestamp_in_treeinfo path 1700000600 w1) in
  exists w2',
    update_timestamp_in_treeinfo path 1700000600 sample_world = Some w2'
    /\ fs w2' = fs w2.
Proof.
  intros path w1 w2.
  apply (second_timestamp_wins path 1700000000 1700000600 sample_world w1 w2).
  - vm_compute. reflexivity.
  - apply some_of_check. vm_compute. reflexivity.
  - apply some_of_check. vm_compute. reflexivity.
Defined.

End PostActions.
